(** * Verification of the audio-replacement pipeline (app.py)

    A shallow embedding of [process_video_audio_sync],
    [adjust_audio_speed_pydub] and the module-level pipeline of app.py,
    together with the parts of Python, pydub and moviepy that these
    functions call.

    Modelling conventions.
    - Python floats are exact rationals ([Q]); [int] truncates towards zero
      and [round] rounds half to even, as in Python 3. [binary64] rounds a
      rational to the nearest float; where the rounding of floats decides
      a statement, the statement gives the computation in both readings.
    - A pydub [AudioSegment] is its frame rate and its sequence of frames.
      A frame is one signed sample: tracks are taken in the mono layout
      that [AudioSegment.silent] generates, so reconciling two segments
      before concatenation only has to reconcile their frame rates.
    - A moviepy clip is its duration and its audio; frames are not tracked.
    - Encoders and decoders are lossless and writing a file succeeds: a file
      written by [export] holds the exported segment. What may fail is what
      the external services answer and the encoding of the final video,
      which are inputs of a run.
    - [audioop.ratecv] is embedded for frame rates in the range of a C int
      ([c_int_max]), beyond which the C function raises [OverflowError]: a
      theorem that asserts a conversion at a rate the code computes carries
      that bound as a hypothesis.
    - Exceptions are values of [exn]; stateful code runs in a state and
      exception monad over [world] (the files on disk and the messages
      shown to the user). *)

From Stdlib Require Import ZArith QArith Qround Qabs Qminmax Lia Lqa.
From stdpp Require Import base gmap strings list.

Local Open Scope Z_scope.

(** ** Python numbers, exceptions and sequences *)

Module Py.

Inductive exn : Type :=
| AttributeError
| ZeroDivisionError
| TypeError
| ValueError
| IndexError
| FileNotFoundError
| OSError
| TooManyMissingFrames
| CouldntDecodeError
| AudioopError.

Inductive result (A : Type) : Type :=
| Ok (a : A)
| Raise (e : exn).
Arguments Ok {A} a.
Arguments Raise {A} e.

#[global] Instance result_ret : MRet result := fun A a => Ok a.
#[global] Instance result_bind : MBind result := fun A B k r =>
  match r with
  | Ok a => k a
  | Raise e => Raise e
  end.

Definition raises {A} (r : result A) : Prop :=
  exists e, r = Raise e.

(** [ys = []; for x in xs: ys.append(f(x))] with a body that may raise. *)
Fixpoint rmap {A B} (f : A -> result B) (xs : list A) : result (list B) :=
  match xs with
  | [] => Ok []
  | x :: xs' => y ← f x; ys ← rmap f xs'; Ok (y :: ys)
  end.

Definition Qltb (x y : Q) : bool := negb (Qle_bool y x).

(** [int(x)] on a float: truncation towards zero. *)
Definition int (x : Q) : Z :=
  if Qle_bool 0 x then Qfloor x else Qceiling x.

(** [round(x)] on a float: the nearest integer, ties to the even one. *)
Definition round (x : Q) : Z :=
  let f := Qfloor x in
  match Qcompare (x - inject_Z f) (1 # 2) with
  | Lt => f
  | Gt => f + 1
  | Eq => if Z.even f then f else f + 1
  end.

(** [x / y] on numbers. *)
Definition truediv (x y : Q) : result Q :=
  if Qeq_bool y 0 then Raise ZeroDivisionError else Ok (x / y)%Q.




(** [data[s:e]] on a sequence, with Python's treatment of negative and
    out-of-range indices. *)
Definition slice_index (n i : Z) : Z :=
  if i <? 0 then Z.max (i + n) 0 else Z.min i n.

Definition slice {A} (l : list A) (s e : Z) : list A :=
  let n := Z.of_nat (length l) in
  let s' := slice_index n s in
  let e' := slice_index n e in
  take (Z.to_nat (e' - s')) (drop (Z.to_nat s') l).

End Py.
Export Py.

(** ** pydub: AudioSegment *)

Module Pydub.

Record AudioSegment : Type := mkAudioSegment {
  frame_rate : Z;
  raw_data : list Z
}.

(** [seg._spawn(data)] and [seg._spawn(data, overrides={"frame_rate": r})]. *)
Definition spawn (seg : AudioSegment) (data : list Z) : AudioSegment :=
  {| frame_rate := frame_rate seg; raw_data := data |}.

Definition spawn_rate (seg : AudioSegment) (data : list Z) (r : Z) : AudioSegment :=
  {| frame_rate := r; raw_data := data |}.

(** [frame_count(ms)]: the (fractional) number of frames in [ms]
    milliseconds; [frame_count()]: the frames the segment holds. *)
Definition frame_count_ms (seg : AudioSegment) (ms : Q) : Q :=
  (ms * (inject_Z (frame_rate seg) / 1000))%Q.

Definition frame_count (seg : AudioSegment) : Z :=
  Z.of_nat (length (raw_data seg)).

(** [len(seg)]: the duration in milliseconds, rounded. *)
Definition len (seg : AudioSegment) : result Z :=
  q ← truediv (inject_Z (frame_count seg)) (inject_Z (frame_rate seg));
  Ok (round (1000 * q)).

Definition parse_position (seg : AudioSegment) (val : Q) : result Z :=
  val' ← (if Qltb val 0
          then l ← len seg; Ok (inject_Z l - Qabs val)%Q
          else Ok val);
  Ok (int (frame_count_ms seg val')).

(** [seg[start:stop]] with both bounds given, in milliseconds. Bounds past
    the end are cut to [len(seg)]; frames the cut range expects beyond the
    data (at most the rounding of [len]) are filled with silence. *)
Definition getitem (seg : AudioSegment) (start stop : Q) : result AudioSegment :=
  l ← len seg;
  let start := Qmin start (inject_Z l) in
  let stop := Qmin stop (inject_Z l) in
  s ← parse_position seg start;
  e ← parse_position seg stop;
  let data := slice (raw_data seg) s e in
  let expected_length := e - s in
  let missing_frames := expected_length - Z.of_nat (length data) in
  if missing_frames =? 0 then Ok (spawn seg data)
  else if Qltb (frame_count_ms seg 2) (inject_Z missing_frames)
       then Raise TooManyMissingFrames
       else
         let silence := map (fun _ => 0) (take 1 data) in
         Ok (spawn seg (data ++ concat (replicate (Z.to_nat missing_frames) silence))).

(** [AudioSegment.silent(duration)], at its default frame rate. *)
Definition silent_frame_rate : Z := 11025.

Definition silent (duration : Z) : AudioSegment :=
  let frames := int (inject_Z silent_frame_rate * (inject_Z duration / 1000)) in
  {| frame_rate := silent_frame_rate;
     raw_data := replicate (Z.to_nat frames) 0 |}.


(** [audioop.ratecv] on 16-bit mono samples with a fresh state, for rates
    in the range of a C int: linear interpolation between the previous and
    the current input sample, on samples scaled to 32 bits. *)
Definition ratecv_out (outrate prev cur d : Z) : Z :=
  Z.shiftr (Z.quot (prev * 65536 * d + cur * 65536 * (outrate - d)) outrate) 16.

(** The inner [while (d >= 0)] loop: the samples it emits, and [d] after it. *)
Definition ratecv_emit (inrate outrate prev cur d : Z) : list Z * Z :=
  let k := Z.to_nat (d / inrate + 1) in
  (map (fun j => ratecv_out outrate prev cur (d - Z.of_nat j * inrate)) (seq 0 k),
   d - Z.of_nat k * inrate).

(** The outer loop, entered with [d < 0]: read one input sample, then emit
    while [d >= 0]. *)
Fixpoint ratecv_loop (inrate outrate d prev cur : Z) (input : list Z) : list Z :=
  match input with
  | [] => []
  | x :: rest =>
      let d' := d + outrate in
      if d' <? 0 then ratecv_loop inrate outrate d' cur x rest
      else
        let '(out, d'') := ratecv_emit inrate outrate cur x d' in
        out ++ ratecv_loop inrate outrate d'' cur x rest
  end.

Definition ratecv (data : list Z) (inrate outrate : Z) : result (list Z) :=
  if (inrate <=? 0) || (outrate <=? 0) then Raise AudioopError
  else
    let g := Z.gcd inrate outrate in
    Ok (ratecv_loop (inrate / g) (outrate / g) (- (outrate / g)) 0 0 data).

Definition set_frame_rate (seg : AudioSegment) (r : Z) : result AudioSegment :=
  if r =? frame_rate seg then Ok seg
  else
    match raw_data seg with
    | [] => Ok (spawn_rate seg [] r)
    | data => converted ← ratecv data (frame_rate seg) r;
              Ok (spawn_rate seg converted r)
    end.

(** [AudioSegment._sync(seg1, seg2)]: both at the larger frame rate. *)
Definition sync (seg1 seg2 : AudioSegment) : result (AudioSegment * AudioSegment) :=
  let r := Z.max (frame_rate seg1) (frame_rate seg2) in
  s1 ← set_frame_rate seg1 r;
  s2 ← set_frame_rate seg2 r;
  Ok (s1, s2).

(** [seg1 + seg2], that is [seg1.append(seg2, crossfade=0)]. *)
Definition append (seg1 seg2 : AudioSegment) : result AudioSegment :=
  '(s1, s2) ← sync seg1 seg2;
  Ok (spawn s1 (raw_data s1 ++ raw_data s2)).

(** The values [sum] ranges over: the integer it starts from, or a segment. *)
Inductive pyobj : Type :=
| PyInt (n : Z)
| PySegment (seg : AudioSegment).

(** [acc + seg]: on an integer this is [seg.__radd__(acc)], which returns
    [seg] for 0. *)
Definition add (acc : pyobj) (seg : AudioSegment) : result pyobj :=
  match acc with
  | PyInt n => if n =? 0 then Ok (PySegment seg) else Raise TypeError
  | PySegment a => s ← append a seg; Ok (PySegment s)
  end.

Fixpoint sum_from (acc : pyobj) (segs : list AudioSegment) : result pyobj :=
  match segs with
  | [] => Ok acc
  | seg :: rest => acc' ← add acc seg; sum_from acc' rest
  end.

(** The builtin [sum(segs)]. *)
Definition sum (segs : list AudioSegment) : result pyobj :=
  sum_from (PyInt 0) segs.

End Pydub.
Export Pydub.

(** ** moviepy: clips *)

Module Moviepy.

(** The audio of a clip: a decoded audio file, or audio derived from other
    clips by sub-clipping or composition (its content is not tracked). *)
Inductive AudioClip : Type :=
| FromSegment (seg : AudioSegment)
| Derived.

Record VideoClip : Type := mkVideoClip {
  duration : Q;
  audio : option AudioClip
}.

(** [clip.subclip(t_start, t_end)]. *)
Definition subclip (clip : VideoClip) (t_start t_end : Q) : result VideoClip :=
  let t_start := if Qltb t_start 0 then (duration clip + t_start)%Q else t_start in
  if Qltb (duration clip) t_start then Raise ValueError
  else
    let t_end := if Qltb t_end 0 then (duration clip + t_end)%Q else t_end in
    Ok {| duration := (t_end - t_start)%Q;
          audio := (fun _ => Derived) <$> audio clip |}.

(** [np.cumsum([0] + ds)[-1]]. *)
Definition total (ds : list Q) : Q := foldl Qplus 0%Q ds.

(** [concatenate_videoclips(clips)], method "chain": the start times [tt]
    are the running sums of the durations, floored at 0; the last one is
    the duration. The frame size is the maximum over the clips, which does
    not exist for an empty list ([ValueError]). The constructor of the
    result asks for the frame at time 0, which is taken from the clip at
    the last index [i] with [tt[i] <= 0]: when the durations sum to nothing
    that index is [len(clips)], past the last clip ([IndexError]). *)
Definition concatenate_videoclips (clips : list VideoClip) : result VideoClip :=
  match clips with
  | [] => Raise ValueError
  | _ =>
      if Qle_bool (total (map duration clips)) 0 then Raise IndexError
      else
        Ok {| duration := Qmax 0 (total (map duration clips));
              audio := if forallb (fun c => negb (bool_decide (is_Some (audio c)))) clips
                       then None else Some Derived |}
  end.

Definition set_audio (clip : VideoClip) (a : AudioClip) : VideoClip :=
  {| duration := duration clip; audio := Some a |}.

End Moviepy.
Export Moviepy.

(** ** The files on disk and the user interface *)

Module World.

Inductive file : Type :=
| FAudio (seg : AudioSegment)
| FVideo (d : Q) (a : option AudioClip)
| FOpaque.

Inductive message : Type :=
| StWrite (text : string)
| StError (text : string)
| StTextArea (label text : string)
| StVideo (path : string).

Record world : Type := mkWorld {
  files : gmap string file;
  shown : list message
}.

(** State over [world], with exceptions: an exception leaves the state as
    it was when it was raised. *)
Definition M (A : Type) : Type := world -> result A * world.

#[global] Instance M_ret : MRet M := fun A a w => (Ok a, w).
#[global] Instance M_bind : MBind M := fun A B k m w =>
  match m w with
  | (Ok a, w') => k a w'
  | (Raise e, w') => (Raise e, w')
  end.

Definition lift {A} (r : result A) : M A := fun w => (r, w).

(** [try: body except Exception as e: handler]. *)
Definition try_except {A} (body : M A) (handler : exn -> M A) : M A := fun w =>
  match body w with
  | (Ok a, w') => (Ok a, w')
  | (Raise e, w') => handler e w'
  end.

Definition st_show (m : message) : M unit := fun w =>
  (Ok (), {| files := files w; shown := shown w ++ [m] |}).

Definition write_file (path : string) (f : file) : M unit := fun w =>
  (Ok (), {| files := <[path := f]> (files w); shown := shown w |}).

(** [AudioSegment.from_file(path)]: the audio of an audio file, or the
    audio track of a video file. *)
Definition from_file (path : string) : M AudioSegment := fun w =>
  match files w !! path with
  | Some (FAudio seg) => (Ok seg, w)
  | Some (FVideo _ (Some (FromSegment seg))) => (Ok seg, w)
  | Some _ => (Raise CouldntDecodeError, w)
  | None => (Raise FileNotFoundError, w)
  end.

(** [obj.export(path, format=...)]: only segments have the method. *)
Definition export (obj : pyobj) (path : string) : M unit :=
  match obj with
  | PyInt _ => lift (Raise AttributeError)
  | PySegment seg => write_file path (FAudio seg)
  end.

(** [AudioFileClip(path)]. *)
Definition AudioFileClip (path : string) : M AudioClip := fun w =>
  match files w !! path with
  | Some (FAudio seg) => (Ok (FromSegment seg), w)
  | Some (FVideo _ (Some a)) => (Ok a, w)
  | _ => (Raise OSError, w)
  end.

(** [VideoFileClip(path)]. *)
Definition VideoFileClip (path : string) : M VideoClip := fun w =>
  match files w !! path with
  | Some (FVideo d a) => (Ok {| duration := d; audio := a |}, w)
  | _ => (Raise OSError, w)
  end.

(** [clip.write_audiofile(path)], called on the [audio] attribute of a
    video clip, which is [None] when the video has no audio track. *)
Definition write_audiofile (a : option AudioClip) (path : string) : M unit :=
  match a with
  | None => lift (Raise AttributeError)
  | Some (FromSegment seg) => write_file path (FAudio seg)
  | Some Derived => write_file path FOpaque
  end.

End World.
Export World.

(** ** app.py *)

Module App.

(** One entry of the transcription's word list: the keys the code reads. *)
Record Segment : Type := mkSegment {
  word : string;
  start : Q;
  end_ : Q
}.

Definition filler_words : list string := ["um"; "uh"; "hmm"; "umm"]%string.

(** [word in filler_words]. *)
Definition is_filler (w : string) : bool := bool_decide (w ∈ filler_words).

(** The body of the loop over the segments (lines 76-88): the chunk and
    the time stamps the iteration appends. *)
Definition clean_segment (audio : AudioSegment) (segment : Segment)
  : result (AudioSegment * (Q * Q)) :=
  let w := word segment in
  let start_ms := (start segment * 1000)%Q in
  let end_ms := (end_ segment * 1000)%Q in
  chunk ← getitem audio start_ms end_ms;
  chunk ← (if is_filler w
           then l ← len chunk; Ok (silent l)
           else Ok chunk);
  Ok (chunk, (start segment, end_ segment)).

(** The loop itself, threading the two accumulators. *)
Fixpoint segment_loop (audio : AudioSegment) (segments : list Segment)
    (cleaned_audio_segments : list AudioSegment)
    (cleaned_timestamps : list (Q * Q))
  : result (list AudioSegment * list (Q * Q)) :=
  match segments with
  | [] => Ok (cleaned_audio_segments, cleaned_timestamps)
  | segment :: rest =>
      '(chunk, stamps) ← clean_segment audio segment;
      segment_loop audio rest
        (cleaned_audio_segments ++ [chunk]) (cleaned_timestamps ++ [stamps])
  end.

Definition cleaned_audio_path : string := "cleaned_audio.mp3".

Definition process_video_audio_sync (video_clip : VideoClip)
    (audio_path : string) (segments : list Segment) : M (VideoClip * string) :=
  audio ← from_file audio_path;
  '(cleaned_audio_segments, cleaned_timestamps) ←
    lift (segment_loop audio segments [] []);
  cleaned_audio ← lift (sum cleaned_audio_segments);
  _ ← export cleaned_audio cleaned_audio_path;
  new_video_clips ←
    lift (rmap (fun '(s, e) => subclip video_clip s e) cleaned_timestamps);
  final_video ← lift (concatenate_videoclips new_video_clips);
  final_audio ← AudioFileClip cleaned_audio_path;
  mret (set_audio final_video final_audio, cleaned_audio_path).

Definition adjusted_audio_path : string := "adjusted_ai_audio_pydub.wav".

Definition adjust_audio_speed_pydub (audio_path : string) (target_duration : Q)
  : M string :=
  audio ← from_file audio_path;
  current_duration ← lift (len audio);
  speed_factor ←
    lift (truediv (inject_Z current_duration) (target_duration * 1000));
  adjusted_audio ←
    lift (set_frame_rate
            (spawn_rate audio (raw_data audio)
               (int (inject_Z (frame_rate audio) * speed_factor)))
            (frame_rate audio));
  _ ← export (PySegment adjusted_audio) adjusted_audio_path;
  mret adjusted_audio_path.

(** *** The external services

    What the collaborators answer is an input of the run. *)

(** The transcription service's answer, as the pipeline reads it. *)
Inductive transcription : Type :=
| TrMalformed
| TrNoResults
| TrWords (segments : list Segment).

Record services : Type := mkServices {
  (** the uploaded video: its duration and audio track, if a file was chosen *)
  uploaded_file : option (Q * option AudioSegment);
  (** Deepgram speech-to-text: [None] when the call raises *)
  deepgram_listen : file -> option transcription;
  (** the chat-completions request: raises, or answers with another status
      than 200 ([None]), or with the corrected text *)
  openai_chat : string -> result (option string);
  (** Deepgram text-to-speech: [None] when the call raises *)
  deepgram_speak : string -> option AudioSegment;
  (** whether encoding the final video raises, and what the failed
      encoder leaves at the path it was writing: nothing it changed
      ([None]), or some file *)
  encoder_fails : bool;
  encoder_debris : option file;
  (** the paths the operating system refuses to delete *)
  remove_denied : string -> bool
}.

Definition correct_transcription (sv : services) (transcript : string)
  : M (option string) :=
  response ← lift (openai_chat sv transcript);
  match response with
  | Some corrected_text => mret (Some corrected_text)
  | None =>
      _ ← st_show (StError "Error: Unable to get a response from OpenAI API.");
      mret None
  end.

Definition transcribe_audio (sv : services) (audio_file_path : string)
  : M (option transcription) := fun w =>
  match files w !! audio_file_path with
  | None => (Raise FileNotFoundError, w)
  | Some buffer_data =>
      match deepgram_listen sv buffer_data with
      | Some response => (Ok (Some response), w)
      | None =>
          (_ ← st_show (StError "An error occurred during transcription");
           mret None) w
      end
  end.

Definition speech_path : string := "output_audio.wav".

Definition convert_text_to_speech (sv : services) (text : string)
  : M (option string) :=
  match deepgram_speak sv text with
  | Some speech =>
      _ ← write_file speech_path (FAudio speech);
      mret (Some speech_path)
  | None =>
      _ ← st_show (StError "Error converting text to speech");
      mret None
  end.

(** [os.remove(path)]. *)
Definition os_remove (sv : services) (path : string) : M unit := fun w =>
  match files w !! path with
  | None => (Raise FileNotFoundError, w)
  | Some _ =>
      if remove_denied sv path then (Raise OSError, w)
      else (Ok (), {| files := delete path (files w); shown := shown w |})
  end.

(** [os.path.basename] and the root of [os.path.splitext], on a name
    that does not begin with several dots. *)
Definition slash : Ascii.ascii := Ascii.ascii_of_nat 47.
Definition dot : Ascii.ascii := Ascii.ascii_of_nat 46.

Fixpoint has_char (c : Ascii.ascii) (s : string) : bool :=
  match s with
  | EmptyString => false
  | String a rest => bool_decide (a = c) || has_char c rest
  end.

Fixpoint basename (s : string) : string :=
  match s with
  | EmptyString => EmptyString
  | String a rest =>
      if has_char slash rest then basename rest
      else if bool_decide (a = slash) then rest else s
  end.

Fixpoint strip_extension (s : string) : string :=
  match s with
  | EmptyString => EmptyString
  | String a rest =>
      if has_char dot rest then String a (strip_extension rest)
      else if bool_decide (a = dot) then EmptyString else s
  end.

Definition splitext_root (s : string) : string :=
  match s with
  | EmptyString => EmptyString
  | String a rest => String a (strip_extension rest)
  end.

(** The name of the temporary audio file of [write_videofile] for the
    codec "aac", whose container moviepy looks up as "mp4". *)
Definition temp_audiofile (path : string) : string :=
  splitext_root (basename path) +:+ "TEMP_MPY_wvf_snd.mp4".

(** [clip.write_videofile(path, codec='libx264', audio_codec='aac')]: the
    audio of the clip, if it has one, is first written to a temporary file
    beside the script; then the video is encoded to [path]; then the
    temporary file is removed. When the encoder raises, the temporary file
    stays. *)
Definition write_videofile (sv : services) (clip : VideoClip) (path : string)
  : M unit :=
  let audiofile := temp_audiofile path in
  _ ← match audio clip with
      | Some a => write_audiofile (Some a) audiofile
      | None => mret ()
      end;
  if encoder_fails sv then
    _ ← match encoder_debris sv with
        | Some f => write_file path f
        | None => mret ()
        end;
    lift (Raise OSError)
  else
    _ ← write_file path (FVideo (duration clip) (audio clip));
    match audio clip with
    | Some _ => os_remove sv audiofile
    | None => mret ()
    end.

Definition temp_video_path : string := "temp_uploaded_video.mp4".
Definition temp_audio_path : string := "extracted_audio.mp3".
Definition final_video_path : string := "final_output_video.mp4".

(** Lines 171-211: the body of the [try] block. *)
Definition process_transcription (sv : services) (video_clip : VideoClip)
    (t : transcription) : M unit :=
  match t with
  | TrMalformed => lift (Raise ValueError)
  | TrNoResults => mret ()
  | TrWords segments =>
      _ ← st_show (StWrite "Transcription completed:");
      let transcript := String.concat " " (map word segments) in
      _ ← st_show (StTextArea "Transcribed Text" transcript);
      corrected_transcript ← correct_transcription sv transcript;
      match corrected_transcript with
      | None | Some EmptyString => mret ()
      | Some corrected =>
          _ ← st_show (StWrite "Corrected Transcription:");
          _ ← st_show (StTextArea "Corrected Text" corrected);
          '(synced_video, _) ←
            process_video_audio_sync video_clip temp_audio_path segments;
          _ ← st_show (StWrite "Cleaned audio synced with video. Generating AI audio...");
          ai_audio_path ← convert_text_to_speech sv corrected;
          match ai_audio_path with
          | None => mret ()
          | Some ai_audio_path =>
              let synced_video_duration := duration synced_video in
              adjusted_ai_audio_path ←
                adjust_audio_speed_pydub ai_audio_path synced_video_duration;
              adjusted ← AudioFileClip adjusted_ai_audio_path;
              let final_video := set_audio synced_video adjusted in
              _ ← write_videofile sv final_video final_video_path;
              _ ← st_show (StWrite "Final video generated with AI audio.");
              st_show (StVideo final_video_path)
          end
      end
  end.

(** Lines 152-224: one run of the script. An exception that [main] returns
    is one that no handler of the script caught. *)
Definition main (sv : services) : M unit :=
  match uploaded_file sv with
  | None => st_show (StWrite "Please upload a video file to begin.")
  | Some (d, track) =>
      _ ← st_show (StWrite "Video uploaded successfully. Processing will start soon.");
      _ ← write_file temp_video_path (FVideo d (FromSegment <$> track));
      video_clip ← VideoFileClip temp_video_path;
      _ ← write_audiofile (audio video_clip) temp_audio_path;
      _ ← st_show (StWrite "Audio extracted successfully.");
      _ ← st_show (StWrite "Transcribing the audio with Deepgram...");
      transcription ← transcribe_audio sv temp_audio_path;
      _ ← match transcription with
          | Some t =>
              try_except (process_transcription sv video_clip t)
                (fun e => st_show (StError "Error while processing transcription"))
          | None => mret ()
          end;
      (* video_clip.close() releases the reader; it touches no file *)
      try_except
        (_ ← os_remove sv temp_audio_path; os_remove sv temp_video_path)
        (fun e => st_show (StError "Error during cleanup"))
  end.

Definition empty_world : world := {| files := ∅; shown := [] |}.

End App.
Export App.

(** ** Vocabulary of the properties *)

Module Props.

(** The value of [len(seg)] when the frame rate is not 0. *)
Definition millis (seg : AudioSegment) : Z :=
  round (1000 * (inject_Z (frame_count seg) / inject_Z (frame_rate seg))).

Definition stamps (segment : Segment) : Q * Q :=
  (start segment, end_ segment).

Definition span (segment : Segment) : Q :=
  (end_ segment - start segment)%Q.

Definition sum_of_spans (segments : list Segment) : Q :=
  total (map span segments).

Definition nonneg_stamps (segment : Segment) : Prop :=
  (0 <= start segment)%Q /\ (0 <= end_ segment)%Q.

(** A segment the video can be cut at: it starts inside the video and does
    not end before it starts. *)
Definition in_range (video : VideoClip) (segment : Segment) : Prop :=
  (0 <= start segment)%Q /\ (start segment <= end_ segment)%Q /\
  (start segment <= duration video)%Q.


Definition all_silence (data : list Z) : Prop :=
  Forall (fun x => x = 0) data.

(** The slice of the original audio that a segment addresses. *)
Definition source_chunk (audio : AudioSegment) (segment : Segment)
  : result AudioSegment :=
  getitem audio (start segment * 1000) (end_ segment * 1000).

(** The chunk the loop appends for a segment: the slice itself, or silence
    of the slice's length in milliseconds. *)
Definition chunk_of (audio : AudioSegment) (segment : Segment)
    (chunk : AudioSegment) : Prop :=
  exists k, source_chunk audio segment = Ok k /\
    chunk = if is_filler (word segment) then silent (millis k) else k.

(** The frames a segment contributes to the concatenated audio. *)
Definition block_of (audio : AudioSegment) (segment : Segment)
    (block : list Z) : Prop :=
  if is_filler (word segment) then all_silence block
  else exists k, source_chunk audio segment = Ok k /\ block = raw_data k.

(** What the running sum holds after the chunks of [done]: either it is at
    the audio's frame rate and made of one block per segment, or it has
    seen fillers only and is silence at the frame rate of [silent]. *)
Definition accumulated (audio : AudioSegment) (done : list Segment)
    (acc : AudioSegment) : Prop :=
  (frame_rate acc = frame_rate audio /\
   exists blocks, raw_data acc = concat blocks /\
                  Forall2 (block_of audio) done blocks)
  \/
  (frame_rate acc = silent_frame_rate /\ all_silence (raw_data acc) /\
   Forall (fun segment => is_filler (word segment) = true) done).



(** The frame rate of the chunk the loop appends for a segment. *)
Definition chunk_rate (audio : AudioSegment) (segment : Segment) : Z :=
  if is_filler (word segment) then silent_frame_rate else frame_rate audio.

Definition filler_segment (segment : Segment) : bool :=
  is_filler (word segment).

(** A computation that leaves the file at [path] as it is, whether it
    returns or raises. *)
Definition preserves {A} (path : string) (m : M A) : Prop :=
  forall w, files (m w).2 !! path = files w !! path.

End Props.
Export Props.

(** ** The stages of a run *)

Module Stages.

(** The clip the script opens on the uploaded copy of the video. *)
Definition source_clip (d : Q) (track : AudioSegment) : VideoClip :=
  {| duration := d; audio := Some (FromSegment track) |}.

(** The state once the audio is extracted (lines 153-165). *)
Definition extracted_world (w : world) (d : Q) (track : AudioSegment) : world :=
  {| files := <[temp_audio_path := FAudio track]>
                (<[temp_video_path := FVideo d (Some (FromSegment track))]> (files w));
     shown := shown w
              ++ [StWrite "Video uploaded successfully. Processing will start soon.";
                  StWrite "Audio extracted successfully.";
                  StWrite "Transcribing the audio with Deepgram..."] |}.

(** Lines 170-214: the [try] block and its handler. *)
Definition guarded_processing (sv : services) (video_clip : VideoClip)
    (t : transcription) : M unit :=
  try_except (process_transcription sv video_clip t)
    (fun e => st_show (StError "Error while processing transcription")).

(** Lines 217-221: the clean-up. *)
Definition cleanup (sv : services) : M unit :=
  try_except
    (_ ← os_remove sv temp_audio_path; os_remove sv temp_video_path)
    (fun e => st_show (StError "Error during cleanup")).

(** The files a run ever writes or deletes: the six names of the script
    and the temporary audio file of [write_videofile]. *)
Definition pipeline_paths : list string :=
  [temp_video_path; temp_audio_path; cleaned_audio_path; speech_path;
   adjusted_audio_path; final_video_path; temp_audiofile final_video_path].

(** The text handed to the correction service: [" ".join(words)]. *)
Definition transcript_of (segments : list Segment) : string :=
  String.concat " " (map word segments).

(** An answer of the correction service after which the script goes no
    further: the request raised, the status was not 200, or the corrected
    text is empty. *)
Definition no_correction (answer : result (option string)) : Prop :=
  match answer with
  | Ok (Some (String _ _)) => False
  | _ => True
  end.

End Stages.
Export Stages.

(** ** Concrete inputs for the examples *)

Module Demo.

(** Six frames at 1000 frames per second: one frame per millisecond. *)
Definition demo_audio : AudioSegment :=
  {| frame_rate := 1000; raw_data := [1; 2; 3; 4; 5; 6] |}.

Definition demo_video : VideoClip :=
  {| duration := 6 # 1000; audio := Some (FromSegment demo_audio) |}.

Definition demo_world : world :=
  {| files := {[ temp_audio_path := FAudio demo_audio ]}; shown := [] |}.

(** Two words with a pause of two milliseconds between them. *)
Definition gap_transcript : list Segment :=
  [ {| word := "hello"; start := 0; end_ := 2 # 1000 |};
    {| word := "world"; start := 4 # 1000; end_ := 6 # 1000 |} ].

(** A filler, then a word, back to back. *)
Definition um_hello : list Segment :=
  [ {| word := "um"; start := 0; end_ := 2 # 1000 |};
    {| word := "hello"; start := 2 # 1000; end_ := 4 # 1000 |} ].

(** A track that holds no frame. *)
Definition empty_track : AudioSegment :=
  {| frame_rate := 44100; raw_data := [] |}.

Definition empty_speech_world : world :=
  {| files := {[ speech_path := FAudio empty_track ]}; shown := [] |}.

(** A track at twice the frame rate of generated silence, 2 ms long. *)
Definition hifi_audio : AudioSegment :=
  {| frame_rate := 22050; raw_data := seqZ 1 44 |}.

Definition hifi_world : world :=
  {| files := {[ temp_audio_path := FAudio hifi_audio ]}; shown := [] |}.

Definition um_hello_ms : list Segment :=
  [ {| word := "um"; start := 0; end_ := 1 # 1000 |};
    {| word := "hello"; start := 1 # 1000; end_ := 2 # 1000 |} ].

(** Two seconds of a constant tone at 8000 frames per second, as the audio
    track of a video of two seconds. *)
Definition talk_audio : AudioSegment :=
  {| frame_rate := 8000; raw_data := replicate (Z.to_nat 16000) 1 |}.


Definition talk_world : world :=
  {| files := {[ temp_audio_path := FAudio talk_audio ]}; shown := [] |}.




(** A filler of half a second, then a word of half a second. *)
Definition um_hello_talk : list Segment :=
  [ {| word := "um"; start := 0; end_ := 1 # 2 |};
    {| word := "hello"; start := 1 # 2; end_ := 1 |} ].





(** Half a second at 8000 frames per second: [len] is 500, and 0.5 is a
    float. *)
Definition half_second_track : AudioSegment :=
  {| frame_rate := 8000; raw_data := replicate (Z.to_nat 4000) 1 |}.


(** Services that all answer. *)
Definition demo_services : services :=
  {| uploaded_file := Some (6 # 1000, Some demo_audio);
     deepgram_listen := fun _ => Some (TrWords um_hello);
     openai_chat := fun _ => Ok (Some "Hello."%string);
     deepgram_speak := fun _ => Some demo_audio;
     encoder_fails := false;
     encoder_debris := None;
     remove_denied := fun _ => false |}.

(** Services that all answer, on the video of two seconds. *)
Definition talk_services : services :=
  {| uploaded_file := Some (2%Q, Some talk_audio);
     deepgram_listen := fun _ => Some (TrWords um_hello_talk);
     openai_chat := fun _ => Ok (Some "Hello."%string);
     deepgram_speak := fun _ => Some half_second_track;
     encoder_fails := false;
     encoder_debris := None;
     remove_denied := fun _ => false |}.

(** The same services on a video without an audio track. *)
Definition silent_movie_services : services :=
  {| uploaded_file := Some (6 # 1000, None);
     deepgram_listen := deepgram_listen demo_services;
     openai_chat := openai_chat demo_services;
     deepgram_speak := deepgram_speak demo_services;
     encoder_fails := false;
     encoder_debris := None;
     remove_denied := fun _ => false |}.

(** The transcription service is down. *)
Definition no_transcription_services : services :=
  {| uploaded_file := uploaded_file demo_services;
     deepgram_listen := fun _ => None;
     openai_chat := openai_chat demo_services;
     deepgram_speak := deepgram_speak demo_services;
     encoder_fails := false;
     encoder_debris := None;
     remove_denied := fun _ => false |}.

(** The correction service answers with another status than 200. *)
Definition no_correction_services : services :=
  {| uploaded_file := uploaded_file demo_services;
     deepgram_listen := deepgram_listen demo_services;
     openai_chat := fun _ => Ok None;
     deepgram_speak := deepgram_speak demo_services;
     encoder_fails := false;
     encoder_debris := None;
     remove_denied := fun _ => false |}.

(** No word is recognised in the audio. *)
Definition no_words_services : services :=
  {| uploaded_file := uploaded_file demo_services;
     deepgram_listen := fun _ => Some (TrWords []);
     openai_chat := openai_chat demo_services;
     deepgram_speak := deepgram_speak demo_services;
     encoder_fails := false;
     encoder_debris := None;
     remove_denied := fun _ => false |}.

(** Speech synthesis is down. *)
Definition no_speech_services : services :=
  {| uploaded_file := uploaded_file demo_services;
     deepgram_listen := deepgram_listen demo_services;
     openai_chat := openai_chat demo_services;
     deepgram_speak := fun _ => None;
     encoder_fails := false;
     encoder_debris := None;
     remove_denied := fun _ => false |}.

End Demo.
Export Demo.

(** * Facts about the embedding *)

(** ** The embedding on small inputs *)

Example int_truncates : int (7 # 2) = 3 /\ int (-7 # 2) = -3.
Proof. split; reflexivity. Qed.

Example round_half_to_even :
  round (5 # 2) = 2 /\ round (7 # 2) = 4 /\ round (-5 # 2) = -2.
Proof. repeat split; reflexivity. Qed.

Example slice_like_python :
  slice [1; 2; 3; 4; 5] 1 3 = [2; 3]
  /\ slice [1; 2; 3; 4; 5] 3 9 = [4; 5]
  /\ slice [1; 2; 3; 4; 5] (-2) 5 = [4; 5]
  /\ slice [1; 2; 3; 4; 5] 4 2 = [].
Proof. repeat split; reflexivity. Qed.

Example getitem_inside : getitem demo_audio 2 4 = Ok (spawn demo_audio [3; 4]).
Proof. reflexivity. Qed.

Example getitem_past_end : getitem demo_audio 4 100 = Ok (spawn demo_audio [5; 6]).
Proof. reflexivity. Qed.

Example silent_half_second : frame_count (silent 500) = 5512.
Proof. reflexivity. Qed.

Example ratecv_upsamples :
  ratecv [100; 200; 300] 11025 44100
  = Ok [100; 125; 150; 175; 200; 225; 250; 275; 300].
Proof. reflexivity. Qed.

Example filler_then_word :
  (process_video_audio_sync demo_video temp_audio_path um_hello demo_world).1
  = Ok ({| duration := (0 + ((2 # 1000) - 0) + ((4 # 1000) - (2 # 1000)))%Q;
           audio := Some (FromSegment
                            {| frame_rate := 11025;
                               raw_data := replicate 22 0 ++ replicate 12 3 |}) |},
        cleaned_audio_path).
Proof. vm_compute. reflexivity. Qed.

(** ** Python numbers *)

Lemma inject_Z_sub a b : (inject_Z (a - b) == inject_Z a - inject_Z b)%Q.
Proof. unfold Z.sub. rewrite inject_Z_plus, inject_Z_opp. reflexivity. Qed.

Lemma inject_Z_succ a : (inject_Z (a + 1) == inject_Z a + 1)%Q.
Proof. rewrite inject_Z_plus. reflexivity. Qed.


Lemma int_nonneg x : (0 <= x)%Q -> int x = Qfloor x.
Proof. intros H. unfold int. apply Qle_bool_iff in H. now rewrite H. Qed.





Lemma round_bounds x :
  (inject_Z (round x) - (1#2) <= x)%Q /\ (x <= inject_Z (round x) + (1#2))%Q.
Proof.
  unfold round.
  pose proof (Qfloor_le x) as Hf. pose proof (Qlt_floor x) as Hf'.
  rewrite inject_Z_succ in Hf'.
  destruct (Qcompare_spec (x - inject_Z (Qfloor x)) (1#2)).
  - destruct (Z.even (Qfloor x)); [|rewrite inject_Z_succ]; lra.
  - lra.
  - rewrite inject_Z_succ; lra.
Qed.

Lemma round_nonneg x : (0 <= x)%Q -> 0 <= round x.
Proof.
  intros H. destruct (round_bounds x) as [_ Hu].
  assert (-1 < round x); [|lia].
  rewrite Zlt_Qlt. change (inject_Z (-1)) with (-1)%Q. lra.
Qed.


Lemma truediv_rate x r : r <> 0 -> truediv x (inject_Z r) = Ok (x / inject_Z r)%Q.
Proof.
  intros H. unfold truediv.
  destruct (Qeq_bool (inject_Z r) 0) eqn:E; [|reflexivity].
  apply Qeq_bool_eq in E. unfold Qeq in E. simpl in E. lia.
Qed.

Lemma len_rate seg : frame_rate seg <> 0 -> len seg = Ok (millis seg).
Proof. intros H. unfold len. rewrite truediv_rate by assumption. reflexivity. Qed.

Lemma frame_count_nonneg seg : 0 <= frame_count seg.
Proof. unfold frame_count. lia. Qed.

Lemma Qdiv_nonneg a b : (0 <= a)%Q -> (0 < b)%Q -> (0 <= a / b)%Q.
Proof.
  intros Ha Hb. unfold Qdiv. apply Qmult_le_0_compat; [assumption|].
  apply Qinv_le_0_compat. lra.
Qed.

Lemma inject_Z_pos r : 0 < r -> (0 < inject_Z r)%Q.
Proof. intros H. change 0%Q with (inject_Z 0). now rewrite <- Zlt_Qlt. Qed.

Lemma inject_Z_nonneg r : 0 <= r -> (0 <= inject_Z r)%Q.
Proof. intros H. change 0%Q with (inject_Z 0). now rewrite <- Zle_Qle. Qed.

Lemma millis_nonneg seg : 0 < frame_rate seg -> 0 <= millis seg.
Proof.
  intros H. apply round_nonneg.
  apply Qmult_le_0_compat; [lra|].
  apply Qdiv_nonneg; [apply inject_Z_nonneg, frame_count_nonneg | now apply inject_Z_pos].
Qed.



Lemma slice_length {A} (l : list A) s e :
  0 <= s -> 0 <= e ->
  Z.of_nat (length (slice l s e))
  = Z.max 0 (Z.min e (Z.of_nat (length l)) - Z.min s (Z.of_nat (length l))).
Proof.
  intros Hs He. unfold slice, slice_index.
  destruct (Z.ltb_spec s 0); [lia|]. destruct (Z.ltb_spec e 0); [lia|].
  rewrite length_take, length_drop. lia.
Qed.


Lemma Qltb_false x y : (y <= x)%Q -> Qltb x y = false.
Proof. intros H. unfold Qltb. apply Qle_bool_iff in H. now rewrite H. Qed.

(** *** Slices of a track with a positive frame rate

    With bounds that are not negative, [seg[start:stop]] always returns:
    both positions are cut to [len(seg)], which exceeds the frames of the
    track by the rounding of [len] at most, that is by less than the two
    milliseconds that may be filled with silence. *)

Section Slicing.

Context (seg : AudioSegment) (Hrate : 0 < frame_rate seg).

Lemma frame_count_ms_nonneg v : (0 <= v)%Q -> (0 <= frame_count_ms seg v)%Q.
Proof.
  intros Hv. unfold frame_count_ms.
  apply Qmult_le_0_compat; [assumption|].
  apply Qdiv_nonneg; [apply inject_Z_nonneg; lia | lra].
Qed.

Lemma position_nonneg v : (0 <= v)%Q -> 0 <= Qfloor (frame_count_ms seg v).
Proof.
  intros Hv. rewrite <- (Qfloor_Z 0). apply Qfloor_resp_le.
  now apply frame_count_ms_nonneg.
Qed.

Lemma parse_position_nonneg v :
  (0 <= v)%Q -> parse_position seg v = Ok (Qfloor (frame_count_ms seg v)).
Proof.
  intros Hv. unfold parse_position.
  rewrite Qltb_false by assumption. cbn.
  now rewrite int_nonneg by now apply frame_count_ms_nonneg.
Qed.

Lemma millis_upper :
  (inject_Z (millis seg) * (inject_Z (frame_rate seg) / 1000)
   <= inject_Z (frame_count seg) + inject_Z (frame_rate seg) / 2000)%Q.
Proof.
  unfold millis.
  set (F := inject_Z (frame_rate seg)). set (N := inject_Z (frame_count seg)).
  assert (0 < F)%Q as HF by now apply inject_Z_pos.
  destruct (round_bounds (1000 * (N / F))) as [Hu _].
  set (R := inject_Z (round (1000 * (N / F)))) in *.
  assert (N / F * F == N)%Q as HX by (field; lra).
  set (X := (N / F)%Q) in *.
  unfold Qdiv. change (/ 1000)%Q with (1 # 1000)%Q. change (/ 2000)%Q with (1 # 2000)%Q.
  nra.
Qed.

Lemma position_upper v :
  (0 <= v)%Q -> (v <= inject_Z (millis seg))%Q ->
  (inject_Z (Qfloor (frame_count_ms seg v))
   <= inject_Z (frame_count seg) + inject_Z (frame_rate seg) / 2000)%Q.
Proof.
  intros Hv Hle.
  eapply Qle_trans; [apply Qfloor_le|].
  eapply Qle_trans; [|apply millis_upper].
  unfold frame_count_ms. apply Qmult_le_compat_r; [assumption|].
  apply Qdiv_nonneg; [apply inject_Z_nonneg; lia | lra].
Qed.

Lemma getitem_total s e :
  (0 <= s)%Q -> (0 <= e)%Q ->
  exists data, getitem seg s e = Ok (spawn seg data).
Proof.
  intros Hs He. unfold getitem.
  rewrite len_rate by lia. cbn [mbind result_bind].
  pose proof (millis_nonneg seg Hrate) as Hl. apply inject_Z_nonneg in Hl.
  assert (0 <= Qmin s (inject_Z (millis seg)))%Q as Hs' by now apply Q.min_glb.
  assert (0 <= Qmin e (inject_Z (millis seg)))%Q as He' by now apply Q.min_glb.
  rewrite !parse_position_nonneg by assumption. cbn [mbind result_bind].
  set (sf := Qfloor (frame_count_ms seg (Qmin s (inject_Z (millis seg))))).
  set (ef := Qfloor (frame_count_ms seg (Qmin e (inject_Z (millis seg))))).
  assert (0 <= sf) as Hsf by now apply position_nonneg.
  assert (0 <= ef) as Hef by now apply position_nonneg.
  assert (inject_Z ef
          <= inject_Z (frame_count seg) + inject_Z (frame_rate seg) / 2000)%Q as Hup.
  { apply position_upper; try assumption. apply Q.le_min_r. }
  pose proof (slice_length (raw_data seg) sf ef Hsf Hef) as Hlen.
  fold (frame_count seg) in Hlen.
  destruct (Z.eqb_spec (ef - sf - Z.of_nat (length (slice (raw_data seg) sf ef))) 0)
    as [E|E].
  - eauto.
  - rewrite Qltb_false; [eauto|].
    set (m := ef - sf - Z.of_nat (length (slice (raw_data seg) sf ef))) in *.
    assert (0 < inject_Z (frame_rate seg))%Q as HF by now apply inject_Z_pos.
    assert (m <= 0 \/ m <= ef - frame_count seg) as [Hm | Hm] by lia.
    + rewrite Zle_Qle in Hm. change (inject_Z 0) with 0%Q in Hm.
      unfold frame_count_ms. unfold Qdiv in *. change (/ 1000)%Q with (1 # 1000)%Q.
      lra.
    + rewrite Zle_Qle, inject_Z_sub in Hm.
      unfold frame_count_ms. unfold Qdiv in *.
      change (/ 1000)%Q with (1 # 1000)%Q.
      change (/ 2000)%Q with (1 # 2000)%Q in Hup. lra.
Qed.

End Slicing.

(** ** The loop over the segments *)

Lemma getitem_rate seg s e k :
  getitem seg s e = Ok k -> frame_rate k = frame_rate seg.
Proof.
  unfold getitem. destruct (len seg); cbn [mbind result_bind]; [|discriminate].
  destruct (parse_position seg (Qmin s _)); cbn [mbind result_bind]; [|discriminate].
  destruct (parse_position seg (Qmin e _)); cbn [mbind result_bind]; [|discriminate].
  cbv zeta.
  destruct (_ =? 0); [intros [= <-]; reflexivity|].
  destruct (Qltb _ _); [discriminate|]. intros [= <-]. reflexivity.
Qed.

Lemma Qmult_1000_nonneg x : (0 <= x)%Q -> (0 <= x * 1000)%Q.
Proof. intros H. lra. Qed.

Lemma clean_segment_ok audio segment :
  0 < frame_rate audio -> nonneg_stamps segment ->
  exists chunk, clean_segment audio segment = Ok (chunk, stamps segment)
    /\ chunk_of audio segment chunk.
Proof.
  intros Hr [Hs He].
  destruct (getitem_total audio Hr (start segment * 1000) (end_ segment * 1000))
    as [data Hk]; [now apply Qmult_1000_nonneg.. |].
  unfold clean_segment, chunk_of, source_chunk. rewrite Hk. cbn [mbind result_bind].
  destruct (is_filler (word segment)) eqn:Ef.
  - rewrite len_rate by (cbn; lia). cbn [mbind result_bind]. eauto.
  - cbn [mbind result_bind]. eauto.
Qed.

Lemma segment_loop_unfold audio segments acc1 acc2 :
  segment_loop audio segments acc1 acc2
  = (rs ← rmap (clean_segment audio) segments;
     Ok (acc1 ++ map fst rs, acc2 ++ map snd rs)).
Proof.
  revert acc1 acc2. induction segments as [|segment rest IH]; intros acc1 acc2.
  - cbn. now rewrite !app_nil_r.
  - cbn [segment_loop rmap]. destruct (clean_segment audio segment) as [[chunk ts]|];
      [|reflexivity].
    cbn [mbind result_bind]. rewrite IH.
    destruct (rmap (clean_segment audio) rest); [|reflexivity].
    cbn. now rewrite <- !app_assoc.
Qed.

Lemma segment_loop_ok audio segments :
  0 < frame_rate audio -> Forall nonneg_stamps segments ->
  exists chunks,
    segment_loop audio segments [] [] = Ok (chunks, map stamps segments)
    /\ Forall2 (chunk_of audio) segments chunks.
Proof.
  intros Hr Hall. rewrite segment_loop_unfold.
  induction Hall as [|segment rest Hseg _ IH].
  - exists []. split; [reflexivity | constructor].
  - destruct (clean_segment_ok audio segment Hr Hseg) as (chunk & Hc & Hrel).
    destruct IH as (chunks & Hloop & Hrest).
    cbn [rmap]. rewrite Hc. cbn [mbind result_bind].
    destruct (rmap (clean_segment audio) rest) as [rs|]; [|discriminate].
    cbn in Hloop. injection Hloop as <- Hts.
    exists (chunk :: map fst rs). cbn. rewrite Hts.
    split; [reflexivity | now constructor].
Qed.

(** ** Concatenation of the chunks *)

Lemma ratecv_out_zero outrate d : ratecv_out outrate 0 0 d = 0.
Proof. unfold ratecv_out. cbn. reflexivity. Qed.

Lemma ratecv_loop_silence inrate outrate d input :
  all_silence input -> all_silence (ratecv_loop inrate outrate d 0 0 input).
Proof.
  intros H. revert d. induction H as [|x rest -> _ IH]; intros d.
  - constructor.
  - cbn [ratecv_loop]. destruct (d + outrate <? 0); [apply IH|].
    unfold ratecv_emit. apply Forall_app. split; [|apply IH].
    apply Forall_map, Forall_forall. intros j _. apply ratecv_out_zero.
Qed.

Lemma set_frame_rate_ok seg r :
  0 < frame_rate seg -> 0 < r ->
  exists data,
    set_frame_rate seg r = Ok {| frame_rate := r; raw_data := data |}
    /\ (r = frame_rate seg -> data = raw_data seg)
    /\ (all_silence (raw_data seg) -> all_silence data).
Proof.
  intros Hs Hr. unfold set_frame_rate.
  destruct (Z.eqb_spec r (frame_rate seg)) as [->|Hne].
  - exists (raw_data seg). destruct seg; cbn. auto.
  - destruct (raw_data seg) as [|x rest] eqn:Ed.
    + exists []. split; [reflexivity|]. split; [lia | constructor].
    + unfold ratecv.
      destruct (Z.leb_spec (frame_rate seg) 0); [lia|].
      destruct (Z.leb_spec r 0); [lia|]. cbn [orb mbind result_bind].
      eexists. split; [reflexivity|]. split; [lia|].
      apply ratecv_loop_silence.
Qed.

Lemma append_ok seg1 seg2 :
  0 < frame_rate seg1 -> 0 < frame_rate seg2 ->
  exists d1 d2,
    append seg1 seg2
    = Ok {| frame_rate := Z.max (frame_rate seg1) (frame_rate seg2);
            raw_data := d1 ++ d2 |}
    /\ (frame_rate seg2 <= frame_rate seg1 -> d1 = raw_data seg1)
    /\ (frame_rate seg1 <= frame_rate seg2 -> d2 = raw_data seg2)
    /\ (all_silence (raw_data seg1) -> all_silence d1)
    /\ (all_silence (raw_data seg2) -> all_silence d2).
Proof.
  intros H1 H2. unfold append, sync.
  set (r := Z.max (frame_rate seg1) (frame_rate seg2)).
  destruct (set_frame_rate_ok seg1 r H1) as (d1 & -> & E1 & Z1); [lia|].
  destruct (set_frame_rate_ok seg2 r H2) as (d2 & -> & E2 & Z2); [lia|].
  cbn. exists d1, d2. repeat split; auto.
  - intros. apply E1. lia.
  - intros. apply E2. lia.
Qed.

Lemma chunk_of_rate audio segment chunk :
  chunk_of audio segment chunk ->
  frame_rate chunk = frame_rate audio \/
  (is_filler (word segment) = true /\ frame_rate chunk = silent_frame_rate
   /\ all_silence (raw_data chunk)).
Proof.
  intros (k & Hk & ->). destruct (is_filler (word segment)).
  - right. repeat split. cbn. apply Forall_replicate. reflexivity.
  - left. eapply getitem_rate, Hk.
Qed.

Lemma chunk_of_rate_pos audio segment chunk :
  0 < frame_rate audio -> chunk_of audio segment chunk -> 0 < frame_rate chunk.
Proof.
  intros Hr H. destruct (chunk_of_rate _ _ _ H) as [-> | (_ & -> & _)];
    [assumption | reflexivity].
Qed.

Lemma sum_from_ok audio acc segments chunks :
  0 < frame_rate audio -> 0 < frame_rate acc ->
  Forall2 (chunk_of audio) segments chunks ->
  exists out, sum_from (PySegment acc) chunks = Ok (PySegment out)
    /\ 0 < frame_rate out.
Proof.
  intros Hr Hacc H. revert acc Hacc.
  induction H as [|segment chunk rest chunks Hc _ IH]; intros acc Hacc.
  - exists acc. split; [reflexivity | assumption].
  - cbn [sum_from add].
    pose proof (chunk_of_rate_pos _ _ _ Hr Hc) as Hpos.
    destruct (append_ok acc chunk Hacc Hpos) as (d1 & d2 & -> & _).
    cbn [mbind result_bind]. apply IH. cbn. lia.
Qed.

Lemma sum_ok audio segments chunks :
  0 < frame_rate audio -> segments <> [] ->
  Forall2 (chunk_of audio) segments chunks ->
  exists out, sum chunks = Ok (PySegment out).
Proof.
  intros Hr Hne H. destruct H as [|segment chunk rest chunks Hc Hrest]; [done|].
  unfold sum. cbn [sum_from add Z.eqb mbind result_bind].
  destruct (sum_from_ok audio chunk rest chunks Hr) as (out & -> & _); eauto.
  eapply chunk_of_rate_pos; eauto.
Qed.

Lemma silence_blocks audio done data :
  done <> [] -> all_silence data ->
  Forall (fun segment => is_filler (word segment) = true) done ->
  exists blocks, data = concat blocks /\ Forall2 (block_of audio) done blocks.
Proof.
  intros Hne Hz Hall. destruct Hall as [|segment rest Hf Hrest]; [done|].
  exists (data :: replicate (length rest) []). split.
  - cbn. induction rest; cbn; [now rewrite app_nil_r|].
    inversion Hrest; subst. auto.
  - constructor; [unfold block_of; now rewrite Hf|].
    clear Hne Hf. induction Hrest as [|s r Hs _ IH]; cbn; constructor; [|exact IH].
    unfold block_of. rewrite Hs. constructor.
Qed.

Lemma accumulated_blocks audio done acc :
  done <> [] -> accumulated audio done acc ->
  exists blocks, raw_data acc = concat blocks /\ Forall2 (block_of audio) done blocks.
Proof.
  intros Hne [(_ & H) | (_ & Hz & Hall)]; [exact H|].
  now apply silence_blocks.
Qed.

Lemma accumulated_rate_pos audio done acc :
  0 < frame_rate audio -> accumulated audio done acc -> 0 < frame_rate acc.
Proof. intros Hr [(-> & _) | (-> & _)]; [assumption | reflexivity]. Qed.

Lemma accumulated_step audio done acc segment chunk :
  silent_frame_rate <= frame_rate audio -> done <> [] ->
  accumulated audio done acc -> chunk_of audio segment chunk ->
  exists acc', append acc chunk = Ok acc'
    /\ accumulated audio (done ++ [segment]) acc'.
Proof.
  intros Hr Hne Hacc Hc.
  assert (0 < frame_rate audio) as Hpos by (unfold silent_frame_rate in Hr; lia).
  pose proof (accumulated_rate_pos _ _ _ Hpos Hacc) as Hapos.
  pose proof (chunk_of_rate_pos _ _ _ Hpos Hc) as Hcpos.
  destruct (append_ok acc chunk Hapos Hcpos) as (d1 & d2 & -> & E1 & E2 & Z1 & Z2).
  eexists. split; [reflexivity|].
  pose proof (chunk_of_rate _ _ _ Hc) as Hrate.
  destruct Hc as (k & Hk & Hchunk).
  destruct (is_filler (word segment)) eqn:Ef.
  - (* a filler: silence at the rate of [silent] *)
    assert (frame_rate chunk = silent_frame_rate) as Erate by (subst chunk; reflexivity).
    assert (all_silence d2) as Hd2.
    { apply Z2. subst chunk. cbn. apply Forall_replicate. reflexivity. }
    destruct Hacc as [(Ea & blocks & Eb & Hb) | (Ea & Hz & Hall)].
    + left. cbn. split; [lia|]. rewrite E1 by lia.
      exists (blocks ++ [d2]). split.
      * rewrite concat_app, Eb. cbn. now rewrite app_nil_r.
      * apply Forall2_app; [exact Hb|]. constructor; [|constructor].
        unfold block_of. now rewrite Ef.
    + right. cbn. split; [lia|]. split.
      * apply Forall_app. split; [now apply Z1 | exact Hd2].
      * apply Forall_app. split; [exact Hall|]. now constructor.
  - (* a word that is kept: the slice itself *)
    subst chunk. assert (frame_rate k = frame_rate audio) as Erate
      by (eapply getitem_rate; exact Hk).
    left. cbn. split.
    { destruct Hacc as [(Ea & _) | (Ea & _)]; lia. }
    assert (d2 = raw_data k) as -> by (apply E2; destruct Hacc as [(Ea & _) | (Ea & _)]; lia).
    assert (exists blocks, d1 = concat blocks /\ Forall2 (block_of audio) done blocks)
      as (blocks & Eb & Hb).
    { destruct Hacc as [(Ea & blocks & Eb & Hb) | (Ea & Hz & Hall)].
      - exists blocks. rewrite E1 by lia. auto.
      - apply silence_blocks; auto. }
    exists (blocks ++ [raw_data k]). split.
    + rewrite concat_app, Eb. cbn. now rewrite app_nil_r.
    + apply Forall2_app; [exact Hb|]. constructor; [|constructor].
      unfold block_of. rewrite Ef. eauto.
Qed.

Lemma sum_from_blocks audio done acc segments chunks :
  silent_frame_rate <= frame_rate audio -> done <> [] ->
  accumulated audio done acc ->
  Forall2 (chunk_of audio) segments chunks ->
  exists out blocks,
    sum_from (PySegment acc) chunks = Ok (PySegment out)
    /\ raw_data out = concat blocks
    /\ Forall2 (block_of audio) (done ++ segments) blocks.
Proof.
  intros Hr Hne Hacc H. revert done acc Hne Hacc.
  induction H as [|segment chunk rest chunks Hc _ IH]; intros done acc Hne Hacc.
  - destruct (accumulated_blocks _ _ _ Hne Hacc) as (blocks & Eb & Hb).
    exists acc, blocks. rewrite app_nil_r. auto.
  - destruct (accumulated_step _ _ _ _ _ Hr Hne Hacc Hc) as (acc' & Ha & Hacc').
    cbn [sum_from add]. rewrite Ha. cbn [mbind result_bind].
    destruct (IH (done ++ [segment]) acc') as (out & blocks & Hs & Eb & Hb);
      [now destruct done | exact Hacc' |].
    exists out, blocks. rewrite <- app_assoc in Hb. auto.
Qed.

Lemma accumulated_first audio segment chunk :
  chunk_of audio segment chunk -> accumulated audio [segment] chunk.
Proof.
  intros Hc. pose proof (chunk_of_rate _ _ _ Hc) as Hrate.
  destruct Hc as (k & Hk & Hchunk).
  destruct (is_filler (word segment)) eqn:Ef.
  - right. subst chunk. repeat split.
    + cbn. apply Forall_replicate. reflexivity.
    + now constructor.
  - left. subst chunk. split; [eapply getitem_rate; exact Hk|].
    exists [raw_data k]. split; [cbn; now rewrite app_nil_r|].
    constructor; [|constructor]. unfold block_of. rewrite Ef. eauto.
Qed.

Lemma sum_blocks audio segments chunks :
  silent_frame_rate <= frame_rate audio -> segments <> [] ->
  Forall2 (chunk_of audio) segments chunks ->
  exists out blocks,
    sum chunks = Ok (PySegment out)
    /\ raw_data out = concat blocks
    /\ Forall2 (block_of audio) segments blocks.
Proof.
  intros Hr Hne H. destruct H as [|segment chunk rest chunks Hc Hrest]; [done|].
  unfold sum. cbn [sum_from add Z.eqb mbind result_bind].
  apply (sum_from_blocks audio [segment] chunk rest chunks); auto.
  now apply accumulated_first.
Qed.

(** ** Cutting and joining the video *)

Lemma subclip_in_range video s e :
  (0 <= s)%Q -> (0 <= e)%Q -> (s <= duration video)%Q ->
  subclip video s e
  = Ok {| duration := (e - s)%Q; audio := (fun _ => Derived) <$> audio video |}.
Proof.
  intros Hs He Hd. unfold subclip.
  rewrite (Qltb_false s 0) by assumption. cbv zeta iota.
  rewrite (Qltb_false (duration video) s) by assumption.
  now rewrite (Qltb_false e 0) by assumption.
Qed.

Lemma in_range_nonneg video segment : in_range video segment -> nonneg_stamps segment.
Proof. intros (Hs & He & _). split; [assumption | lra]. Qed.

Lemma subclips_ok video segments :
  Forall (in_range video) segments ->
  exists clips,
    rmap (fun '(s, e) => subclip video s e) (map stamps segments) = Ok clips
    /\ map duration clips = map span segments.
Proof.
  induction 1 as [|segment rest Hseg _ (clips & IH & Hd)].
  - exists []. split; reflexivity.
  - destruct Hseg as (Hs & He & Hv).
    cbn [map rmap]. rewrite IH. unfold stamps at 1.
    rewrite subclip_in_range by (try assumption; lra).
    cbn [mbind result_bind].
    eexists. split; [reflexivity|]. cbn. now rewrite Hd.
Qed.









Lemma concatenate_nothing clips :
  clips <> [] -> (total (map duration clips) <= 0)%Q ->
  concatenate_videoclips clips = Raise IndexError.
Proof.
  intros Hne H. unfold concatenate_videoclips. destruct clips; [done|].
  apply Qle_bool_iff in H. now rewrite H.
Qed.

(** ** [process_video_audio_sync] *)

Lemma process_audio_stage video path segments w audio chunks out :
  files w !! path = Some (FAudio audio) ->
  segment_loop audio segments [] [] = Ok (chunks, map stamps segments) ->
  sum chunks = Ok (PySegment out) ->
  let w' := {| files := <[cleaned_audio_path := FAudio out]> (files w);
               shown := shown w |} in
  process_video_audio_sync video path segments w
  = match
      clips ← rmap (fun '(s, e) => subclip video s e) (map stamps segments);
      concatenate_videoclips clips
    with
    | Ok final_video =>
        (Ok (set_audio final_video (FromSegment out), cleaned_audio_path), w')
    | Raise e => (Raise e, w')
    end.
Proof.
  intros Hf Hloop Hsum w'.
  unfold process_video_audio_sync.
  cbv [mbind M_bind from_file lift mret M_ret]. rewrite Hf, Hloop, Hsum.
  cbv [export write_file result_bind].
  destruct (rmap _ (map stamps segments)) as [clips|]; [|reflexivity].
  destruct (concatenate_videoclips clips) as [final_video|]; [|reflexivity].
  unfold AudioFileClip. cbn [files]. rewrite lookup_insert_eq. reflexivity.
Qed.


(** When every span is empty the video cannot be joined: the call raises
    after it has written the cleaned audio. *)
Lemma process_nothing_to_join video path segments w audio :
  files w !! path = Some (FAudio audio) ->
  0 < frame_rate audio -> segments <> [] ->
  Forall (in_range video) segments ->
  (sum_of_spans segments <= 0)%Q ->
  exists chunks out,
    Forall2 (chunk_of audio) segments chunks
    /\ sum chunks = Ok (PySegment out)
    /\ process_video_audio_sync video path segments w
       = (Raise IndexError,
          {| files := <[cleaned_audio_path := FAudio out]> (files w);
             shown := shown w |}).
Proof.
  intros Hf Hr Hne Hall Hzero.
  assert (Forall nonneg_stamps segments) as Hnn
    by (eapply Forall_impl; [exact Hall | apply in_range_nonneg]).
  destruct (segment_loop_ok audio segments Hr Hnn) as (chunks & Hloop & Hchunks).
  destruct (sum_ok audio segments chunks Hr Hne Hchunks) as (out & Hsum).
  exists chunks, out. split; [exact Hchunks|]. split; [exact Hsum|].
  rewrite (process_audio_stage video path segments w audio chunks out Hf Hloop Hsum).
  destruct (subclips_ok video segments Hall) as (clips & -> & Hd).
  cbn [mbind result_bind].
  rewrite concatenate_nothing; [reflexivity | | rewrite Hd; exact Hzero].
  intros ->. destruct segments; [done | discriminate].
Qed.

(** * Classification and the empty transcript *)

(** C3. A segment is classified as a filler exactly when its text is one of
    "um", "uh", "hmm", "umm", compared character by character: capitalised
    or punctuated variants such as "Um," are not fillers. *)
Theorem filler_classification_exact :
  (forall w : string,
     is_filler w = true
     <-> w = "um"%string \/ w = "uh"%string \/ w = "hmm"%string \/ w = "umm"%string)
  /\ is_filler "Um," = false
  /\ is_filler "Um" = false
  /\ is_filler "um," = false
  /\ is_filler "UMM" = false
  /\ is_filler " uh" = false.
Proof.
  split; [|repeat split; reflexivity].
  intros w. unfold is_filler, filler_words.
  rewrite bool_decide_eq_true, !elem_of_cons, elem_of_nil. tauto.
Qed.

(** C4. On an empty transcript [process_video_audio_sync] raises: the sum of
    no chunk is the integer 0, which cannot be exported. Nothing is written. *)
Theorem empty_transcript_raises (video : VideoClip) (path : string) (w : world) :
  raises (process_video_audio_sync video path [] w).1
  /\ process_video_audio_sync video path [] w
     = (match files w !! path with
        | Some (FAudio _) | Some (FVideo _ (Some (FromSegment _))) =>
            Raise AttributeError
        | Some _ => Raise CouldntDecodeError
        | None => Raise FileNotFoundError
        end, w).
Proof.
  unfold process_video_audio_sync, raises.
  cbv [mbind M_bind from_file lift mret M_ret].
  destruct (files w !! path) as [[seg| ? [[|]|] |]|]; cbn; eauto.
Qed.

(** ** [adjust_audio_speed_pydub] *)

Lemma truediv_ok x y : ~ (y == 0)%Q -> truediv x y = Ok (x / y)%Q.
Proof.
  intros H. unfold truediv. destruct (Qeq_bool y 0) eqn:E; [|reflexivity].
  apply Qeq_bool_eq in E. contradiction.
Qed.

Lemma truediv_zero x y : (y == 0)%Q -> truediv x y = Raise ZeroDivisionError.
Proof. intros H. unfold truediv. apply Qeq_eq_bool in H. now rewrite H. Qed.

Lemma int_nonpos x : (x <= 0)%Q -> int x <= 0.
Proof.
  intros H. unfold int. destruct (Qle_bool 0 x) eqn:E.
  - apply Qle_bool_iff in E. rewrite <- (Qfloor_Z 0). apply Qfloor_resp_le. exact H.
  - rewrite <- (Qceiling_Z 0). apply Qceiling_resp_le. exact H.
Qed.

(** *** Floats *)








(** C5 as stated fails: on a track without frames a negative target is
    accepted and a file is written. *)
Lemma negative_target_accepted :
  (-1 <= 0)%Q
  /\ (adjust_audio_speed_pydub speech_path (-1) empty_speech_world).1
     = Ok adjusted_audio_path.
Proof. split; [discriminate | vm_compute; reflexivity]. Qed.

(** C5, amended. There is no check of the target of its own. A target of 0
    makes the division of the speed factor raise; a negative target makes
    the frame rate derived from it non-positive, which the rate conversion
    rejects as soon as the track holds a frame. *)
Theorem nonpositive_target_raises (path : string) (target : Q) (w : world)
    (audio : AudioSegment) :
  files w !! path = Some (FAudio audio) ->
  0 < frame_rate audio ->
  (target <= 0)%Q ->
  (target == 0)%Q \/ raw_data audio <> [] ->
  adjust_audio_speed_pydub path target w
  = (Raise (if Qeq_bool target 0 then ZeroDivisionError else AudioopError), w).
Proof.
  intros Hf Hr Ht Hcase.
  unfold adjust_audio_speed_pydub.
  cbv [mbind M_bind from_file lift mret M_ret]. rewrite Hf.
  rewrite len_rate by lia.
  destruct (Qeq_bool target 0) eqn:E.
  - apply Qeq_bool_eq in E. rewrite truediv_zero; [reflexivity|]. rewrite E. ring.
  - assert (~ (target == 0)%Q) as Hnz.
    { intros H0. apply Qeq_eq_bool in H0. congruence. }
    destruct Hcase as [H0 | Hdata]; [contradiction|].
    rewrite truediv_ok by lra.
    set (sf := (inject_Z (millis audio) / (target * 1000))%Q).
    assert (sf <= 0)%Q as Hsf.
    { pose proof (millis_nonneg audio Hr) as Hm. apply inject_Z_nonneg in Hm.
      assert (sf * (target * 1000) == inject_Z (millis audio))%Q as Hx
        by (subst sf; field; lra).
      assert (target < 0)%Q by lra. nra. }
    assert (int (inject_Z (frame_rate audio) * sf) <= 0) as Hrate.
    { apply int_nonpos. pose proof (inject_Z_pos _ Hr). nra. }
    unfold set_frame_rate, spawn_rate. cbn [frame_rate raw_data].
    destruct (Z.eqb_spec (frame_rate audio) (int (inject_Z (frame_rate audio) * sf)));
      [lia|].
    destruct (raw_data audio) as [|x rest]; [done|].
    unfold ratecv. destruct (Z.leb_spec (int (inject_Z (frame_rate audio) * sf)) 0);
      [reflexivity | lia].
Qed.

Lemma nonpositive_target_raises_witness :
  adjust_audio_speed_pydub temp_audio_path (-1) demo_world
  = (Raise AudioopError, demo_world)
  /\ adjust_audio_speed_pydub temp_audio_path 0 demo_world
  = (Raise ZeroDivisionError, demo_world).
Proof.
  split.
  - apply (nonpositive_target_raises temp_audio_path (-1) demo_world demo_audio).
    + reflexivity.
    + reflexivity.
    + discriminate.
    + right. discriminate.
  - apply (nonpositive_target_raises temp_audio_path 0 demo_world demo_audio).
    + reflexivity.
    + reflexivity.
    + discriminate.
    + left. reflexivity.
Defined.

(** ** What the loop appends at a given position *)

Lemma rmap_lookup {A B} (f : A -> result B) xs ys i x :
  rmap f xs = Ok ys -> xs !! i = Some x ->
  exists y, ys !! i = Some y /\ f x = Ok y.
Proof.
  revert ys i. induction xs as [|x0 xs IH]; intros ys i Hmap Hx; [done|].
  cbn [rmap] in Hmap. destruct (f x0) as [y0|] eqn:E0; [|discriminate].
  cbn [mbind result_bind] in Hmap.
  destruct (rmap f xs) as [ys0|]; [|discriminate].
  cbn in Hmap. injection Hmap as <-.
  destruct i as [|i]; cbn in *.
  - injection Hx as <-. eauto.
  - eapply IH; eauto.
Qed.

Lemma segment_loop_lookup audio segments chunks ts i segment :
  segment_loop audio segments [] [] = Ok (chunks, ts) ->
  segments !! i = Some segment ->
  exists chunk, chunks !! i = Some chunk
    /\ clean_segment audio segment = Ok (chunk, stamps segment).
Proof.
  rewrite segment_loop_unfold. intros Hloop Hseg.
  destruct (rmap (clean_segment audio) segments) as [rs|] eqn:Hmap; [|discriminate].
  cbn in Hloop. injection Hloop as <- <-.
  destruct (rmap_lookup _ _ _ _ _ Hmap Hseg) as ([chunk st] & Hy & Hc).
  exists chunk. rewrite list_lookup_fmap, Hy. split; [reflexivity|].
  rewrite Hc. f_equal. f_equal.
  unfold clean_segment in Hc.
  destruct (getitem _ _ _); cbn [mbind result_bind] in Hc; [|discriminate].
  destruct (is_filler _); cbn [mbind result_bind] in Hc.
  - destruct (len _); cbn in Hc; [|discriminate]. now injection Hc as _ <-.
  - now injection Hc as _ <-.
Qed.

Lemma clean_segment_inv audio segment chunk st :
  clean_segment audio segment = Ok (chunk, st) ->
  exists k, source_chunk audio segment = Ok k
    /\ ((is_filler (word segment) = true
         /\ exists l, len k = Ok l /\ chunk = silent l)
        \/ (is_filler (word segment) = false /\ chunk = k)).
Proof.
  unfold clean_segment, source_chunk. intros Hc.
  destruct (getitem _ _ _) as [k|]; cbn [mbind result_bind] in Hc; [|discriminate].
  exists k. split; [reflexivity|].
  destruct (is_filler (word segment)); cbn [mbind result_bind] in Hc.
  - left. split; [reflexivity|].
    destruct (len k) as [l|]; cbn in Hc; [|discriminate].
    injection Hc as <- _. eauto.
  - right. injection Hc as <- _. auto.
Qed.

(** C10. The reassembler is a function of its inputs, and which branch it
    takes for the segment at position [i] (silence it, or keep its slice) is
    the same in any two runs whose segments at [i] carry the same word,
    whatever the audio, the time stamps and the other segments are. *)
Theorem mute_decision_depends_on_word_only
    (audio1 audio2 : AudioSegment) (segments1 segments2 : list Segment)
    (chunks1 chunks2 : list AudioSegment) (ts1 ts2 : list (Q * Q))
    (i : nat) (s1 s2 : Segment) :
  segment_loop audio1 segments1 [] [] = Ok (chunks1, ts1) ->
  segment_loop audio2 segments2 [] [] = Ok (chunks2, ts2) ->
  segments1 !! i = Some s1 ->
  segments2 !! i = Some s2 ->
  word s1 = word s2 ->
  (exists k1 k2,
     source_chunk audio1 s1 = Ok k1 /\ source_chunk audio2 s2 = Ok k2
     /\ ((is_filler (word s1) = true
          /\ exists l1 l2, len k1 = Ok l1 /\ len k2 = Ok l2
               /\ chunks1 !! i = Some (silent l1)
               /\ chunks2 !! i = Some (silent l2))
         \/ (is_filler (word s1) = false
             /\ chunks1 !! i = Some k1 /\ chunks2 !! i = Some k2)))
  /\ (audio1 = audio2 -> segments1 = segments2 ->
      chunks1 = chunks2 /\ ts1 = ts2).
Proof.
  intros H1 H2 Hs1 Hs2 Hw. split.
  - destruct (segment_loop_lookup _ _ _ _ _ _ H1 Hs1) as (c1 & Hc1 & Hk1).
    destruct (segment_loop_lookup _ _ _ _ _ _ H2 Hs2) as (c2 & Hc2 & Hk2).
    destruct (clean_segment_inv _ _ _ _ Hk1) as (k1 & Hsrc1 & Hb1).
    destruct (clean_segment_inv _ _ _ _ Hk2) as (k2 & Hsrc2 & Hb2).
    exists k1, k2. split; [exact Hsrc1|]. split; [exact Hsrc2|].
    rewrite <- Hw in Hb2.
    destruct Hb1 as [(Ef & l1 & Hl1 & ->) | (Ef & ->)];
      destruct Hb2 as [(Ef' & l2 & Hl2 & ->) | (Ef' & ->)]; try congruence.
    + left. split; [exact Ef|]. exists l1, l2. auto.
    + right. auto.
  - intros <- <-. rewrite H1 in H2. injection H2 as <- <-. auto.
Qed.

Lemma mute_decision_depends_on_word_only_witness :
  exists chunks1 chunks2 ts1 ts2,
    segment_loop demo_audio um_hello [] [] = Ok (chunks1, ts1)
    /\ segment_loop empty_track [ {| word := "um"; start := 1; end_ := 2 |} ] [] []
       = Ok (chunks2, ts2)
    /\ exists l1 l2,
         chunks1 !! 0%nat = Some (silent l1) /\ chunks2 !! 0%nat = Some (silent l2).
Proof.
  do 4 eexists.
  split; [vm_compute; reflexivity|].
  split; [vm_compute; reflexivity|].
  destruct (mute_decision_depends_on_word_only
              demo_audio empty_track um_hello
              [ {| word := "um"; start := 1; end_ := 2 |} ]
              _ _ _ _ 0%nat
              {| word := "um"; start := 0; end_ := 2 # 1000 |}
              {| word := "um"; start := 1; end_ := 2 |}
              eq_refl eq_refl eq_refl eq_refl eq_refl)
    as [(k1 & k2 & _ & _ & [(_ & l1 & l2 & _ & _ & H1 & H2) | (Hf & _)]) _].
  - exists l1, l2. split; [exact H1 | exact H2].
  - vm_compute in Hf. discriminate Hf.
Defined.

(** ** Slices at and past the end of the track *)

Lemma Qmin_idem_r x y : Qmin (Qmin x y) y = Qmin x y.
Proof.
  unfold Qmin, GenericMinMax.gmin.
  destruct (Qcompare x y) eqn:E; rewrite ?E; try reflexivity.
  assert (Qcompare y y = Eq) as -> by (apply Qeq_alt; reflexivity). reflexivity.
Qed.

Lemma getitem_clamped seg s e l :
  len seg = Ok l ->
  getitem seg s e = getitem seg (Qmin s (inject_Z l)) (Qmin e (inject_Z l)).
Proof.
  intros Hl. unfold getitem. rewrite Hl. cbn [mbind result_bind].
  now rewrite !Qmin_idem_r.
Qed.


(** C6 as stated fails for the video: a segment that starts after the end
    of the video makes [subclip] raise. *)
Lemma segment_past_video_end_raises :
  (duration demo_video < 2)%Q
  /\ (process_video_audio_sync demo_video temp_audio_path
        [ {| word := "late"; start := 2; end_ := 3 |} ] demo_world).1
     = Raise ValueError.
Proof. split; [reflexivity | vm_compute; reflexivity]. Qed.

(** C6, amended. Slicing the audio cuts both bounds to the length of the
    track and never raises; cutting the video raises when the segment
    starts after the end of the video and otherwise keeps the requested
    length [end - start], also when [end] lies after the end of the video. *)
Theorem out_of_range_slicing (audio : AudioSegment) (video : VideoClip)
    (segment : Segment) :
  0 < frame_rate audio ->
  nonneg_stamps segment ->
  (exists k,
     source_chunk audio segment = Ok k
     /\ getitem audio (Qmin (start segment * 1000) (inject_Z (millis audio)))
                      (Qmin (end_ segment * 1000) (inject_Z (millis audio)))
        = Ok k
     /\ frame_rate k = frame_rate audio)
  /\ subclip video (start segment) (end_ segment)
     = if Qltb (duration video) (start segment) then Raise ValueError
       else Ok {| duration := (end_ segment - start segment)%Q;
                  audio := (fun _ => Derived) <$> Moviepy.audio video |}.
Proof.
  intros Hr [Hs He]. split.
  - destruct (getitem_total audio Hr (start segment * 1000) (end_ segment * 1000))
      as [data Hk]; [now apply Qmult_1000_nonneg.. |].
    exists (spawn audio data). unfold source_chunk. split; [exact Hk|].
    split; [|reflexivity].
    rewrite <- Hk. symmetry. apply getitem_clamped, len_rate. lia.
  - unfold subclip. rewrite (Qltb_false (start segment) 0) by assumption.
    cbv zeta iota. destruct (Qltb (duration video) (start segment)); [reflexivity|].
    now rewrite (Qltb_false (end_ segment) 0) by assumption.
Qed.

Lemma out_of_range_slicing_witness :
  (exists k,
     source_chunk demo_audio {| word := "late"; start := 4 # 1000; end_ := 3 |} = Ok k
     /\ getitem demo_audio (Qmin ((4 # 1000) * 1000) (inject_Z (millis demo_audio)))
                           (Qmin (3 * 1000) (inject_Z (millis demo_audio)))
        = Ok k
     /\ frame_rate k = frame_rate demo_audio)
  /\ subclip demo_video (4 # 1000) 3
     = if Qltb (duration demo_video) (4 # 1000) then Raise ValueError
       else Ok {| duration := (3 - (4 # 1000))%Q;
                  audio := (fun _ => Derived) <$> Moviepy.audio demo_video |}.
Proof.
  apply (out_of_range_slicing demo_audio demo_video
           {| word := "late"; start := 4 # 1000; end_ := 3 |}).
  - reflexivity.
  - split; discriminate.
Defined.

(** ** Segments of length zero *)









(** ** The reassembled video and audio *)




(** C2 as stated fails: after a pause the second word is not found at its
    own interval of the reassembled audio, which is only 4 ms long; the
    frames of the word sit right after those of the first word. *)
Lemma pause_shifts_audio :
  is_filler "hello" = false /\ is_filler "world" = false
  /\ match files (process_video_audio_sync demo_video temp_audio_path
                    gap_transcript demo_world).2 !! cleaned_audio_path with
     | Some (FAudio out) =>
         raw_data out = [1; 2; 5; 6]
         /\ getitem demo_audio 4 6 = Ok {| frame_rate := 1000; raw_data := [5; 6] |}
         /\ getitem out 4 6 = Ok {| frame_rate := 1000; raw_data := [] |}
     | _ => False
     end.
Proof. vm_compute. repeat split; reflexivity. Qed.

(** C2, amended. The reassembled audio is the concatenation, in order, of
    one block of frames per segment: all-silence for a filler, the frames of
    the slice [audio[start:end]] for any other word. A block therefore
    starts where the blocks before it end, not at the segment's start time.
    This holds for an audio track at a frame rate of at least that of the
    generated silence, and non-negative time stamps. *)
Theorem reassembled_audio_blocks (video : VideoClip) (path : string)
    (segments : list Segment) (w : world) (audio : AudioSegment) :
  files w !! path = Some (FAudio audio) ->
  silent_frame_rate <= frame_rate audio ->
  segments <> [] ->
  Forall nonneg_stamps segments ->
  exists chunks out blocks,
    Forall2 (chunk_of audio) segments chunks
    /\ sum chunks = Ok (PySegment out)
    /\ files (process_video_audio_sync video path segments w).2
         !! cleaned_audio_path = Some (FAudio out)
    /\ raw_data out = concat blocks
    /\ Forall2 (block_of audio) segments blocks.
Proof.
  intros Hf Hr Hne Hall.
  assert (0 < frame_rate audio) as Hpos by (unfold silent_frame_rate in Hr; lia).
  destruct (segment_loop_ok audio segments Hpos Hall) as (chunks & Hloop & Hchunks).
  destruct (sum_blocks audio segments chunks Hr Hne Hchunks)
    as (out & blocks & Hsum & Hcat & Hblocks).
  exists chunks, out, blocks. repeat split; try assumption.
  rewrite (process_audio_stage video path segments w audio chunks out Hf Hloop Hsum).
  destruct (_ ≫= _); cbn; apply lookup_insert_eq.
Qed.

Lemma reassembled_audio_blocks_witness :
  exists chunks out blocks,
    Forall2 (chunk_of hifi_audio) um_hello_ms chunks
    /\ sum chunks = Ok (PySegment out)
    /\ files (process_video_audio_sync demo_video temp_audio_path um_hello_ms
                hifi_world).2 !! cleaned_audio_path = Some (FAudio out)
    /\ raw_data out = concat blocks
    /\ Forall2 (block_of hifi_audio) um_hello_ms blocks.
Proof.
  apply (reassembled_audio_blocks demo_video temp_audio_path um_hello_ms
           hifi_world hifi_audio).
  - reflexivity.
  - unfold silent_frame_rate. simpl. lia.
  - discriminate.
  - repeat constructor; discriminate.
Defined.

(** ** The files a run leaves behind *)

Lemma preserves_ret {A} path (a : A) : preserves path (mret a).
Proof. intros w. reflexivity. Qed.

Lemma preserves_lift {A} path (r : result A) : preserves path (lift r).
Proof. intros w. reflexivity. Qed.

Lemma preserves_show path m : preserves path (st_show m).
Proof. intros w. reflexivity. Qed.

Lemma preserves_write path q f : q <> path -> preserves path (write_file q f).
Proof. intros H w. cbn. now apply lookup_insert_ne. Qed.

Lemma preserves_bind {A B} path (m : M A) (k : A -> M B) :
  preserves path m -> (forall a, preserves path (k a)) -> preserves path (m ≫= k).
Proof.
  intros Hm Hk w. cbv [mbind M_bind]. specialize (Hm w).
  destruct (m w) as [[a|e] w1]; cbn in *; [|exact Hm].
  rewrite <- Hm. apply Hk.
Qed.

Lemma preserves_from_file path q : preserves path (from_file q).
Proof.
  intros w. unfold from_file.
  destruct (files w !! q) as [[| ? [[|]|] |]|]; reflexivity.
Qed.

Lemma preserves_AudioFileClip path q : preserves path (AudioFileClip q).
Proof.
  intros w. unfold AudioFileClip.
  destruct (files w !! q) as [[| ? [|] |]|]; reflexivity.
Qed.

Lemma preserves_export path obj q : q <> path -> preserves path (export obj q).
Proof.
  intros H. destruct obj; [apply preserves_lift | now apply preserves_write].
Qed.

Create HintDb preserve.
#[local] Hint Resolve preserves_ret preserves_lift preserves_show
  preserves_from_file preserves_AudioFileClip : preserve.

(** One step through a computation: a leaf that writes nowhere, a write
    to another path (the side condition is left to [side]), or a bind or
    case distinction to go through. *)
Ltac preserved_leaf side :=
  first [ solve [auto with preserve]
        | apply preserves_export; side
        | apply preserves_write; side ].

Ltac preserved_node :=
  first [ apply preserves_bind; [|intros ?]
        | match goal with
          | |- preserves _ (let '(_, _) := ?x in _) => destruct x
          | |- preserves _ (match ?x with _ => _ end) => destruct x
          | |- preserves _ (if ?x then _ else _) => destruct x
          end ].

Lemma preserves_process path video audio_path segments :
  cleaned_audio_path <> path ->
  preserves path (process_video_audio_sync video audio_path segments).
Proof.
  intros H. unfold process_video_audio_sync.
  repeat first [preserved_leaf assumption | preserved_node].
Qed.

Lemma preserves_adjust path audio_path target :
  adjusted_audio_path <> path ->
  preserves path (adjust_audio_speed_pydub audio_path target).
Proof.
  intros H. unfold adjust_audio_speed_pydub.
  repeat first [preserved_leaf assumption | preserved_node].
Qed.

Lemma preserves_os_remove path sv q : q <> path -> preserves path (os_remove sv q).
Proof.
  intros H w. unfold os_remove. destruct (files w !! q); [|reflexivity].
  destruct (remove_denied sv q); [reflexivity|]. cbn. now apply lookup_delete_ne.
Qed.

Lemma preserves_write_audiofile path a q :
  q <> path -> preserves path (write_audiofile a q).
Proof.
  intros H. destruct a as [[|]|]; cbn;
    [now apply preserves_write | now apply preserves_write | apply preserves_lift].
Qed.

(** [write_videofile] touches the file it encodes and its temporary audio
    file, and no other. *)
Lemma preserves_write_videofile path sv clip q :
  q <> path -> temp_audiofile q <> path ->
  preserves path (write_videofile sv clip q).
Proof.
  intros Hq Ht. unfold write_videofile.
  repeat first
    [ preserved_leaf assumption
    | apply preserves_os_remove; assumption
    | apply preserves_write_audiofile; assumption
    | preserved_node ].
Qed.

(** The processing stage writes the cleaned audio, the two speech files,
    the final video and the temporary audio of its encoding, and no other
    file. *)
Lemma preserves_process_transcription path sv video t :
  path = temp_audio_path \/ path = temp_video_path ->
  preserves path (process_transcription sv video t).
Proof.
  intros Hp.
  assert (forall q, In q [cleaned_audio_path; speech_path; adjusted_audio_path;
                          final_video_path; temp_audiofile final_video_path]
                    -> q <> path) as Hq.
  { intros q Hin ->. cbn in Hin. destruct Hp as [Hp | Hp];
      repeat (destruct Hin as [Hin | Hin]; [rewrite Hp in Hin; discriminate Hin|]);
      exact Hin. }
  unfold process_transcription, correct_transcription, convert_text_to_speech.
  repeat first
    [ apply preserves_process; apply Hq; cbn; tauto
    | apply preserves_adjust; apply Hq; cbn; tauto
    | apply preserves_write_videofile; apply Hq; cbn; tauto
    | preserved_leaf ltac:(apply Hq; cbn; tauto)
    | preserved_node ].
Qed.

Lemma try_except_returns path (body : M ()) (handler : exn -> M ()) w :
  preserves path body ->
  (forall e w0, (handler e w0).1 = Ok ()
                /\ files (handler e w0).2 !! path = files w0 !! path) ->
  exists w', try_except body handler w = (Ok (), w')
    /\ files w' !! path = files w !! path.
Proof.
  intros Hb Hh. unfold try_except. specialize (Hb w).
  destruct (body w) as [[[]|e] w1]; cbn in *; [eauto|].
  destruct (Hh e w1) as [H1 H2]. destruct (handler e w1) as [r w2]. cbn in *.
  subst r. exists w2. split; [reflexivity | congruence].
Qed.

(** The two [os.remove] calls and their handler (lines 217-221). *)
Lemma cleanup_outcome sv w fa fv :
  files w !! temp_audio_path = Some fa ->
  files w !! temp_video_path = Some fv ->
  exists w',
    try_except
      (_ ← os_remove sv temp_audio_path; os_remove sv temp_video_path)
      (fun _ => st_show (StError "Error during cleanup")) w
    = (Ok (), w')
    /\ files w' !! temp_audio_path
       = (if remove_denied sv temp_audio_path then Some fa else None)
    /\ files w' !! temp_video_path
       = (if remove_denied sv temp_audio_path || remove_denied sv temp_video_path
          then Some fv else None)
    /\ (if remove_denied sv temp_audio_path || remove_denied sv temp_video_path
        then last (shown w') = Some (StError "Error during cleanup")
        else shown w' = shown w).
Proof.
  intros Ha Hv. unfold try_except, os_remove. cbv [mbind M_bind]. rewrite Ha.
  destruct (remove_denied sv temp_audio_path); cbn [orb].
  - eexists. split; [reflexivity|]. cbn. rewrite last_snoc. auto.
  - cbn [files]. rewrite lookup_delete_ne by discriminate. rewrite Hv.
    destruct (remove_denied sv temp_video_path).
    + eexists. split; [reflexivity|]. cbn.
      rewrite lookup_delete_eq, lookup_delete_ne by discriminate.
      rewrite last_snoc. auto.
    + eexists. split; [reflexivity|]. cbn.
      rewrite lookup_delete_ne by discriminate.
      rewrite !lookup_delete_eq. auto.
Qed.

(** C9 as stated fails: after a run in which every step succeeds, the
    synthesized speech, the adjusted speech and the cleaned audio are still
    on disk. *)
Lemma speech_files_left_behind :
  (main demo_services empty_world).1 = Ok ()
  /\ files (main demo_services empty_world).2 !! speech_path <> None
  /\ files (main demo_services empty_world).2 !! adjusted_audio_path <> None
  /\ files (main demo_services empty_world).2 !! cleaned_audio_path <> None
  /\ files (main demo_services empty_world).2 !! final_video_path <> None
  /\ files (main demo_services empty_world).2 !! temp_audio_path = None.
Proof. vm_compute. repeat split; discriminate. Qed.

(** C9, amended. When the uploaded video has an audio track, the run ends
    without an exception whatever the services answer and whatever the
    processing stage raises, and it ends with the clean-up: the extracted
    audio is deleted unless the system refuses, then the uploaded copy of
    the video is deleted unless one of the two deletions is refused. A
    refused deletion is shown as an error and does not make the run fail. *)
Theorem cleanup_after_run (sv : services) (w : world) (d : Q)
    (track : AudioSegment) :
  uploaded_file sv = Some (d, Some track) ->
  exists w',
    main sv w = (Ok (), w')
    /\ files w' !! temp_audio_path
       = (if remove_denied sv temp_audio_path then Some (FAudio track) else None)
    /\ files w' !! temp_video_path
       = (if remove_denied sv temp_audio_path || remove_denied sv temp_video_path
          then Some (FVideo d (Some (FromSegment track))) else None)
    /\ (if remove_denied sv temp_audio_path || remove_denied sv temp_video_path
        then last (shown w') = Some (StError "Error during cleanup")
        else True).
Proof.
  intros Hup. unfold main. rewrite Hup.
  set (cleanup := try_except (os_remove sv temp_audio_path ≫= _) _).
  cbv [mbind M_bind st_show write_file VideoFileClip write_audiofile].
  cbn [files shown option_fmap fmap option_map].
  rewrite lookup_insert_eq. cbn [audio fmap option_fmap option_map].
  cbn [files shown].
  unfold transcribe_audio at 1. cbn [files]. rewrite lookup_insert_eq.
  set (fs := <[temp_audio_path := FAudio track]>
               (<[temp_video_path := FVideo d (Some (FromSegment track))]> (files w))).
  assert (fs !! temp_audio_path = Some (FAudio track)) as Ha
    by apply lookup_insert_eq.
  assert (fs !! temp_video_path = Some (FVideo d (Some (FromSegment track)))) as Hv.
  { subst fs. rewrite lookup_insert_ne by discriminate. apply lookup_insert_eq. }
  destruct (deepgram_listen sv (FAudio track)) as [t|].
  - match goal with
    | |- context [try_except (process_transcription sv ?v t) ?h ?w0] =>
        destruct (try_except_returns temp_audio_path
                    (process_transcription sv v t) h w0)
          as (w1 & E1 & Pa);
          [apply preserves_process_transcription; auto
          | intros; split; reflexivity |];
        destruct (try_except_returns temp_video_path
                    (process_transcription sv v t) h w0)
          as (w1' & E1' & Pv);
          [apply preserves_process_transcription; auto
          | intros; split; reflexivity |]
    end.
    rewrite E1 in E1'. injection E1' as <-.
    rewrite E1. cbn [files] in Pa, Pv. rewrite Ha in Pa. rewrite Hv in Pv.
    subst cleanup.
    destruct (cleanup_outcome sv w1 _ _ Pa Pv) as (w' & -> & Fa & Fv & Hs).
    exists w'. repeat split; try assumption.
    destruct (_ || _); auto.
  - cbv [mbind M_bind mret M_ret st_show]. cbn [files shown].
    subst cleanup.
    match goal with
    | |- context [try_except _ _ ?w0] =>
        destruct (cleanup_outcome sv w0 _ _ Ha Hv) as (w' & -> & Fa & Fv & Hs)
    end.
    exists w'. repeat split; try assumption.
    destruct (_ || _); auto.
Qed.

Lemma cleanup_after_run_witness :
  exists w',
    main demo_services empty_world = (Ok (), w')
    /\ files w' !! temp_audio_path = None
    /\ files w' !! temp_video_path = None.
Proof.
  destruct (cleanup_after_run demo_services empty_world (6 # 1000) demo_audio)
    as (w' & Hm & Ha & Hv & _).
  - reflexivity.
  - exists w'. split; [exact Hm|]. split; [exact Ha | exact Hv].
Defined.

(** * Further properties of the code *)

(** ** The loop keeps one chunk per segment *)

Lemma rmap_length {A B} (f : A -> result B) xs ys :
  rmap f xs = Ok ys -> length ys = length xs.
Proof.
  revert ys. induction xs as [|x xs IH]; intros ys H; cbn in H.
  - now injection H as <-.
  - destruct (f x); cbn in H; [|discriminate].
    destruct (rmap f xs) as [ys'|]; cbn in H; [|discriminate].
    injection H as <-. cbn. f_equal. now apply IH.
Qed.

Lemma clean_segment_stamps audio segment chunk st :
  clean_segment audio segment = Ok (chunk, st) -> st = stamps segment.
Proof.
  unfold clean_segment. intros H.
  destruct (getitem _ _ _); cbn [mbind result_bind] in H; [|discriminate].
  destruct (is_filler _); cbn [mbind result_bind] in H.
  - destruct (len _); cbn in H; [|discriminate]. now injection H as _ <-.
  - now injection H as _ <-.
Qed.

Lemma rmap_clean_stamps audio segments rs :
  rmap (clean_segment audio) segments = Ok rs ->
  map snd rs = map stamps segments.
Proof.
  revert rs. induction segments as [|segment rest IH]; intros rs H; cbn in H.
  - now injection H as <-.
  - destruct (clean_segment audio segment) as [[chunk st]|] eqn:Ec;
      cbn in H; [|discriminate].
    destruct (rmap _ rest) as [rs'|]; cbn in H; [|discriminate].
    injection H as <-. cbn. f_equal; [|now apply IH].
    eapply clean_segment_stamps, Ec.
Qed.

(** X1. When the loop over the segments returns, it has appended exactly one
    chunk and one pair of time stamps per segment, in the order of the
    transcript, after what the two accumulators held: no segment is
    dropped, merged or reordered. *)
Theorem loop_keeps_order_and_count (audio : AudioSegment)
    (segments : list Segment) (acc1 chunks : list AudioSegment)
    (acc2 ts : list (Q * Q)) :
  segment_loop audio segments acc1 acc2 = Ok (chunks, ts) ->
  ts = acc2 ++ map stamps segments
  /\ exists new, chunks = acc1 ++ new
       /\ length new = length segments
       /\ forall i segment, segments !! i = Some segment ->
            exists chunk, new !! i = Some chunk
              /\ clean_segment audio segment = Ok (chunk, stamps segment).
Proof.
  rewrite segment_loop_unfold. intros H.
  destruct (rmap (clean_segment audio) segments) as [rs|] eqn:Hmap; [|discriminate].
  cbn in H. injection H as <- <-.
  split; [now rewrite (rmap_clean_stamps _ _ _ Hmap)|].
  exists (map fst rs). split; [reflexivity|]. split.
  - rewrite length_map. eapply rmap_length, Hmap.
  - intros i segment Hseg.
    destruct (rmap_lookup _ _ _ _ _ Hmap Hseg) as ([chunk st] & Hy & Hc).
    exists chunk. rewrite list_lookup_fmap, Hy. split; [reflexivity|].
    now rewrite Hc, (clean_segment_stamps _ _ _ _ Hc).
Qed.

Lemma loop_keeps_order_and_count_witness :
  exists chunks ts,
    segment_loop demo_audio um_hello [] [] = Ok (chunks, ts)
    /\ ts = [(0, 2 # 1000); (2 # 1000, 4 # 1000)]%Q
    /\ length chunks = 2%nat.
Proof.
  do 2 eexists. split; [vm_compute; reflexivity|].
  destruct (loop_keeps_order_and_count demo_audio um_hello [] _ [] _ eq_refl)
    as (Hts & new & Hc & Hlen & _).
  split; [exact Hts|]. exact (eq_trans (f_equal length Hc) Hlen).
Defined.

(** ** The frame rate of the cleaned audio *)

Lemma set_frame_rate_rate seg r s :
  set_frame_rate seg r = Ok s -> frame_rate s = r.
Proof.
  unfold set_frame_rate. destruct (Z.eqb_spec r (frame_rate seg)) as [->|_].
  - now intros [= <-].
  - destruct (raw_data seg); [now intros [= <-]|].
    destruct (ratecv _ _ _); cbn; [now intros [= <-] | discriminate].
Qed.

Lemma append_rate seg1 seg2 s :
  append seg1 seg2 = Ok s ->
  frame_rate s = Z.max (frame_rate seg1) (frame_rate seg2).
Proof.
  unfold append, sync. cbv zeta.
  destruct (set_frame_rate seg1 _) as [s1|] eqn:E1; cbn [mbind result_bind];
    [|discriminate].
  destruct (set_frame_rate seg2 _) as [s2|]; cbn [mbind result_bind];
    [|discriminate].
  intros [= <-]. cbn. eapply set_frame_rate_rate, E1.
Qed.

Lemma sum_from_rate acc chunks out :
  sum_from (PySegment acc) chunks = Ok (PySegment out) ->
  frame_rate out = foldl Z.max (frame_rate acc) (map frame_rate chunks).
Proof.
  revert acc. induction chunks as [|chunk rest IH]; intros acc H; cbn in H.
  - now injection H as <-.
  - destruct (append acc chunk) as [s|] eqn:Ea; cbn in H; [|discriminate].
    cbn [map foldl]. rewrite <- (append_rate _ _ _ Ea). now apply IH.
Qed.

Lemma foldl_max_spec r0 rest :
  foldl Z.max r0 rest ∈ r0 :: rest
  /\ Forall (fun y => y <= foldl Z.max r0 rest) (r0 :: rest).
Proof.
  revert r0. induction rest as [|r rest IH]; intros r0; cbn [foldl].
  - split; [left | constructor; [lia | constructor]].
  - destruct (IH (Z.max r0 r)) as [Hin Hall]. split.
    + apply elem_of_cons in Hin as [Hin | Hin].
      * rewrite Hin. destruct (Z.max_spec r0 r) as [[_ ->] | [_ ->]];
          [right; left | left].
      * right. right. exact Hin.
    + inversion Hall as [|? ? Hm Hrest]; subst.
      constructor; [lia|]. constructor; [lia | exact Hrest].
Qed.

Lemma chunk_of_chunk_rate audio segment chunk :
  chunk_of audio segment chunk -> frame_rate chunk = chunk_rate audio segment.
Proof.
  intros (k & Hk & ->). unfold chunk_rate.
  destruct (is_filler (word segment)); [reflexivity|].
  eapply getitem_rate, Hk.
Qed.

Lemma chunks_rates audio segments chunks :
  Forall2 (chunk_of audio) segments chunks ->
  map frame_rate chunks = map (chunk_rate audio) segments.
Proof.
  induction 1 as [|segment chunk rest chunks Hc _ IH]; [reflexivity|].
  cbn. f_equal; [now apply chunk_of_chunk_rate | exact IH].
Qed.

Lemma forallb_false_witness {A} (f : A -> bool) l :
  forallb f l = false -> exists x, x ∈ l /\ f x = false.
Proof.
  induction l as [|a l IH]; cbn; [discriminate|].
  destruct (f a) eqn:Ea; cbn.
  - intros H. destruct (IH H) as (x & Hin & Hx). exists x. split; [now right | exact Hx].
  - intros _. exists a. split; [left | exact Ea].
Qed.

Lemma existsb_false_all {A} (f : A -> bool) l x :
  existsb f l = false -> x ∈ l -> f x = false.
Proof.
  induction l as [|a l IH]; cbn; intros H Hin; [now apply elem_of_nil in Hin|].
  apply orb_false_iff in H as [Ha Hl].
  apply elem_of_cons in Hin as [-> | Hin]; auto.
Qed.

Lemma forallb_true_all {A} (f : A -> bool) l x :
  forallb f l = true -> x ∈ l -> f x = true.
Proof.
  induction l as [|a l IH]; cbn; intros H Hin; [now apply elem_of_nil in Hin|].
  apply andb_true_iff in H as [Ha Hl].
  apply elem_of_cons in Hin as [-> | Hin]; auto.
Qed.

Lemma existsb_true_witness {A} (f : A -> bool) l :
  existsb f l = true -> exists x, x ∈ l /\ f x = true.
Proof.
  induction l as [|a l IH]; cbn; [discriminate|].
  destruct (f a) eqn:Ea; cbn.
  - intros _. exists a. split; [left | exact Ea].
  - intros H. destruct (IH H) as (x & Hin & Hx). exists x. split; [now right | exact Hx].
Qed.

Lemma max_chunk_rate audio segments x :
  x ∈ map (chunk_rate audio) segments ->
  Forall (fun y => y <= x) (map (chunk_rate audio) segments) ->
  x = if forallb filler_segment segments then silent_frame_rate
      else if existsb filler_segment segments
           then Z.max (frame_rate audio) silent_frame_rate
           else frame_rate audio.
Proof.
  intros Hin Hmax.
  apply list_elem_of_fmap in Hin as (s & -> & Hs).
  assert (forall s', s' ∈ segments -> chunk_rate audio s' <= chunk_rate audio s) as Hle.
  { intros s' Hs'. rewrite Forall_forall in Hmax. apply Hmax.
    apply list_elem_of_fmap. eauto. }
  destruct (forallb filler_segment segments) eqn:Eall.
  - unfold chunk_rate. fold (filler_segment s).
    now rewrite (forallb_true_all _ _ _ Eall Hs).
  - destruct (forallb_false_witness _ _ Eall) as (n & Hn & En).
    destruct (existsb filler_segment segments) eqn:Eex.
    + destruct (existsb_true_witness _ _ Eex) as (f & Hf & Ef).
      pose proof (Hle n Hn) as Ln. pose proof (Hle f Hf) as Lf.
      unfold chunk_rate in *. unfold filler_segment in En, Ef.
      rewrite En in Ln. rewrite Ef in Lf.
      destruct (is_filler (word s)); lia.
    + unfold chunk_rate. fold (filler_segment s).
      now rewrite (existsb_false_all _ _ _ Eex Hs).
Qed.

Lemma sum_from_silence acc chunks out :
  0 < frame_rate acc -> all_silence (raw_data acc) ->
  Forall (fun c => 0 < frame_rate c /\ all_silence (raw_data c)) chunks ->
  sum_from (PySegment acc) chunks = Ok (PySegment out) ->
  all_silence (raw_data out).
Proof.
  intros Hr Hz Hall. revert acc Hr Hz.
  induction Hall as [|chunk rest [Hc Hcz] _ IH]; intros acc Hr Hz H; cbn in H.
  - now injection H as <-.
  - destruct (append_ok acc chunk Hr Hc) as (d1 & d2 & Ea & _ & _ & Z1 & Z2).
    rewrite Ea in H. cbn in H. refine (IH _ _ _ H); cbn.
    + lia.
    + apply Forall_app. split; [now apply Z1 | now apply Z2].
Qed.

Lemma filler_chunk_silent audio segment chunk :
  chunk_of audio segment chunk -> filler_segment segment = true ->
  0 < frame_rate chunk /\ all_silence (raw_data chunk).
Proof.
  intros (k & _ & ->) Hf. unfold filler_segment in Hf. rewrite Hf.
  split; [reflexivity|]. cbn. apply Forall_replicate. reflexivity.
Qed.

Lemma filler_chunks_silent audio segments chunks :
  Forall2 (chunk_of audio) segments chunks ->
  forallb filler_segment segments = true ->
  Forall (fun c => 0 < frame_rate c /\ all_silence (raw_data c)) chunks.
Proof.
  induction 1 as [|s c r cs Hc _ IH]; intros E; [constructor|].
  cbn [forallb] in E. apply andb_true_iff in E as [Es Er].
  constructor; [now apply (filler_chunk_silent _ _ _ Hc) | now apply IH].
Qed.

(** X2. The cleaned audio takes the largest frame rate among its chunks:
    the rate of the source when no word is silenced, the 11025 frames per
    second of generated silence when every word is a filler (whatever the
    rate of the source, and the result is then all-silence), and the larger
    of the two when the transcript mixes both. *)
Theorem cleaned_audio_frame_rate (video : VideoClip) (path : string)
    (segments : list Segment) (w : world) (audio : AudioSegment) :
  files w !! path = Some (FAudio audio) ->
  0 < frame_rate audio ->
  segments <> [] ->
  Forall nonneg_stamps segments ->
  exists out,
    files (process_video_audio_sync video path segments w).2 !! cleaned_audio_path
    = Some (FAudio out)
    /\ frame_rate out
       = (if forallb filler_segment segments then silent_frame_rate
          else if existsb filler_segment segments
               then Z.max (frame_rate audio) silent_frame_rate
               else frame_rate audio)
    /\ (if forallb filler_segment segments then all_silence (raw_data out)
        else True).
Proof.
  intros Hf Hr Hne Hall.
  destruct (segment_loop_ok audio segments Hr Hall) as (chunks & Hloop & Hchunks).
  destruct (sum_ok audio segments chunks Hr Hne Hchunks) as (out & Hsum).
  exists out. split; [|split].
  - rewrite (process_audio_stage video path segments w audio chunks out Hf Hloop Hsum).
    destruct (_ ≫= _); cbn; apply lookup_insert_eq.
  - pose proof (chunks_rates _ _ _ Hchunks) as Hrates.
    destruct segments as [|segment rest]; [done|].
    inversion Hchunks as [|? chunk ? chunks' Hc Hrest]; subst chunks.
    rename chunks' into chunks.
    unfold sum in Hsum. cbn [sum_from add Z.eqb mbind result_bind] in Hsum.
    pose proof (sum_from_rate _ _ _ Hsum) as Hout.
    destruct (foldl_max_spec (frame_rate chunk) (map frame_rate chunks)) as [Hin Hmax].
    rewrite <- Hout in Hin, Hmax. cbn [map] in Hrates.
    change (frame_rate chunk :: map frame_rate chunks)
      with (map frame_rate (chunk :: chunks)) in Hin, Hmax.
    cbn [map] in Hin, Hmax. rewrite Hrates in Hin, Hmax.
    now apply (max_chunk_rate audio (segment :: rest)).
  - destruct (forallb filler_segment segments) eqn:Eall; [|exact I].
    destruct segments as [|segment rest]; [done|].
    inversion Hchunks as [|? chunk ? chunks' Hc Hrest]; subst chunks.
    rename chunks' into chunks.
    unfold sum in Hsum. cbn [sum_from add Z.eqb mbind result_bind] in Hsum.
    cbn [forallb] in Eall. apply andb_true_iff in Eall as [E1 Erest].
    destruct (filler_chunk_silent _ _ _ Hc E1) as [Hpos Hz].
    refine (sum_from_silence chunk chunks out Hpos Hz _ Hsum).
    eapply filler_chunks_silent; eauto.
Qed.

Lemma cleaned_audio_frame_rate_witness :
  exists out,
    files (process_video_audio_sync demo_video temp_audio_path
             [ {| word := "um"; start := 0; end_ := 1 # 1000 |};
               {| word := "uh"; start := 1 # 1000; end_ := 2 # 1000 |} ]
             hifi_world).2 !! cleaned_audio_path
    = Some (FAudio out)
    /\ frame_rate out = silent_frame_rate
    /\ all_silence (raw_data out).
Proof.
  apply (cleaned_audio_frame_rate demo_video temp_audio_path
           [ {| word := "um"; start := 0; end_ := 1 # 1000 |};
             {| word := "uh"; start := 1 # 1000; end_ := 2 # 1000 |} ]
           hifi_world hifi_audio).
  - reflexivity.
  - reflexivity.
  - discriminate.
  - repeat constructor; discriminate.
Defined.

(** ** A cut that fails after the export *)

Lemma subclip_raises_value_error video s e x :
  subclip video s e = Raise x -> x = ValueError.
Proof.
  unfold subclip. destruct (Qltb (duration video) _); [now intros [= <-] | discriminate].
Qed.

Lemma subclip_past_end video s e :
  (0 <= s)%Q -> (duration video < s)%Q -> subclip video s e = Raise ValueError.
Proof.
  intros Hs Hd. unfold subclip.
  rewrite (Qltb_false s 0) by assumption. cbv zeta iota.
  unfold Qltb. destruct (Qle_bool s (duration video)) eqn:E; [|reflexivity].
  apply Qle_bool_iff in E. lra.
Qed.

Lemma subclips_fail video segments :
  Forall nonneg_stamps segments ->
  Exists (fun segment => (duration video < start segment)%Q) segments ->
  rmap (fun '(s, e) => subclip video s e) (map stamps segments) = Raise ValueError.
Proof.
  intros Hall Hex. induction Hex as [segment rest Hlate | segment rest _ IH].
  - inversion Hall as [|? ? [Hs _] _]; subst. cbn [map rmap].
    change (stamps segment) with (start segment, end_ segment). cbv beta iota.
    now rewrite subclip_past_end.
  - inversion Hall as [|? ? _ Hrest]; subst. cbn [map rmap].
    change (stamps segment) with (start segment, end_ segment). cbv beta iota.
    destruct (subclip video (start segment) (end_ segment)) as [clip|x] eqn:E.
    + cbn [mbind result_bind]. now rewrite IH.
    + cbn. f_equal. eapply subclip_raises_value_error, E.
Qed.

(** X3. [process_video_audio_sync] exports the cleaned audio before it cuts
    the video: when a segment starts after the end of the video the call
    raises [ValueError], and the cleaned audio has already been written to
    [cleaned_audio.mp3]. *)
Theorem cut_failure_leaves_cleaned_audio (video : VideoClip) (path : string)
    (segments : list Segment) (w : world) (audio : AudioSegment) :
  files w !! path = Some (FAudio audio) ->
  0 < frame_rate audio ->
  Forall nonneg_stamps segments ->
  Exists (fun segment => (duration video < start segment)%Q) segments ->
  exists chunks out,
    Forall2 (chunk_of audio) segments chunks
    /\ sum chunks = Ok (PySegment out)
    /\ process_video_audio_sync video path segments w
       = (Raise ValueError,
          {| files := <[cleaned_audio_path := FAudio out]> (files w);
             shown := shown w |}).
Proof.
  intros Hf Hr Hall Hex.
  assert (segments <> []) as Hne by (intros ->; inversion Hex).
  destruct (segment_loop_ok audio segments Hr Hall) as (chunks & Hloop & Hchunks).
  destruct (sum_ok audio segments chunks Hr Hne Hchunks) as (out & Hsum).
  exists chunks, out. split; [exact Hchunks|]. split; [exact Hsum|].
  rewrite (process_audio_stage video path segments w audio chunks out Hf Hloop Hsum).
  now rewrite (subclips_fail video segments Hall Hex).
Qed.

Lemma cut_failure_leaves_cleaned_audio_witness :
  exists out,
    process_video_audio_sync demo_video temp_audio_path
      [ {| word := "hello"; start := 0; end_ := 2 # 1000 |};
        {| word := "late"; start := 2; end_ := 3 |} ] demo_world
    = (Raise ValueError,
       {| files := <[cleaned_audio_path := FAudio out]> (files demo_world);
          shown := shown demo_world |}).
Proof.
  destruct (cut_failure_leaves_cleaned_audio demo_video temp_audio_path
              [ {| word := "hello"; start := 0; end_ := 2 # 1000 |};
                {| word := "late"; start := 2; end_ := 3 |} ]
              demo_world demo_audio)
    as (chunks & out & _ & _ & H).
  - reflexivity.
  - reflexivity.
  - repeat constructor; discriminate.
  - right. left. reflexivity.
  - exists out. exact H.
Defined.

(** ** How many frames the rate conversion returns *)




(** ** [adjust_audio_speed_pydub] with a positive target *)









(** ** The stages of a run *)

Lemma main_unfold sv w d track :
  uploaded_file sv = Some (d, Some track) ->
  main sv w
  = match deepgram_listen sv (FAudio track) with
    | Some t =>
        (_ ← guarded_processing sv (source_clip d track) t; cleanup sv)
          (extracted_world w d track)
    | None =>
        (_ ← st_show (StError "An error occurred during transcription");
         cleanup sv) (extracted_world w d track)
    end.
Proof.
  intros Hup. unfold main. rewrite Hup.
  fold (cleanup sv).
  cbv [mbind M_bind st_show write_file VideoFileClip write_audiofile
       transcribe_audio mret M_ret].
  cbn [files shown option_fmap fmap option_map].
  rewrite lookup_insert_eq. cbn [audio files shown].
  rewrite lookup_insert_eq.
  unfold extracted_world, guarded_processing, source_clip.
  cbn [files shown]. rewrite <- !app_assoc. cbn [app].
  destruct (deepgram_listen sv (FAudio track)); reflexivity.
Qed.

Lemma cleanup_allowed sv w fa fv :
  files w !! temp_audio_path = Some fa ->
  files w !! temp_video_path = Some fv ->
  remove_denied sv temp_audio_path = false ->
  remove_denied sv temp_video_path = false ->
  cleanup sv w
  = (Ok (), {| files := delete temp_video_path (delete temp_audio_path (files w));
               shown := shown w |}).
Proof.
  intros Ha Hv Da Dv. unfold cleanup, try_except, os_remove. cbv [mbind M_bind].
  rewrite Ha, Da. cbn [files]. rewrite lookup_delete_ne by discriminate.
  now rewrite Hv, Dv.
Qed.

Lemma delete_temps_extracted (m : gmap string file) fa fv :
  delete temp_video_path
    (delete temp_audio_path
       (<[temp_audio_path := fa]> (<[temp_video_path := fv]> m)))
  = delete temp_video_path (delete temp_audio_path m).
Proof.
  apply map_eq. intros p.
  destruct (decide (p = temp_video_path)) as [->|Hv];
    [now rewrite !lookup_delete_eq|].
  rewrite !(lookup_delete_ne _ temp_video_path) by congruence.
  destruct (decide (p = temp_audio_path)) as [->|Ha];
    [now rewrite !lookup_delete_eq|].
  rewrite !(lookup_delete_ne _ temp_audio_path) by congruence.
  now rewrite !lookup_insert_ne by congruence.
Qed.

(** ** Runs that stop early *)

(** X6. A video without an audio track aborts the run: extracting the
    audio raises [AttributeError] outside any handler, the clean-up is never
    reached, and the uploaded copy of the video stays on disk. *)
Theorem video_without_audio_aborts (sv : services) (w : world) (d : Q) :
  uploaded_file sv = Some (d, None) ->
  main sv w
  = (Raise AttributeError,
     {| files := <[temp_video_path := FVideo d None]> (files w);
        shown := shown w
                 ++ [StWrite "Video uploaded successfully. Processing will start soon."] |}).
Proof.
  intros Hup. unfold main. rewrite Hup.
  cbv [mbind M_bind st_show write_file VideoFileClip write_audiofile lift].
  cbn [files shown option_fmap fmap option_map].
  rewrite lookup_insert_eq. reflexivity.
Qed.

Lemma video_without_audio_aborts_witness :
  (main silent_movie_services empty_world).1 = Raise AttributeError
  /\ files (main silent_movie_services empty_world).2 !! temp_video_path
     = Some (FVideo (6 # 1000) None).
Proof.
  rewrite (video_without_audio_aborts silent_movie_services empty_world (6 # 1000)).
  - split; [reflexivity | apply lookup_insert_eq].
  - reflexivity.
Defined.

Lemma extracted_temp_audio w d track :
  files (extracted_world w d track) !! temp_audio_path = Some (FAudio track).
Proof. apply lookup_insert_eq. Qed.

Lemma extracted_temp_video w d track :
  files (extracted_world w d track) !! temp_video_path
  = Some (FVideo d (Some (FromSegment track))).
Proof. cbn. rewrite lookup_insert_ne by discriminate. apply lookup_insert_eq. Qed.

(** A stage that writes no file, followed by a clean-up that is allowed. *)
Lemma cleanup_after_idle_stage sv w d track (stage : M ()) msgs :
  stage (extracted_world w d track)
  = (Ok (), {| files := files (extracted_world w d track);
               shown := shown (extracted_world w d track) ++ msgs |}) ->
  remove_denied sv temp_audio_path = false ->
  remove_denied sv temp_video_path = false ->
  (_ ← stage; cleanup sv) (extracted_world w d track)
  = (Ok (), {| files := delete temp_video_path (delete temp_audio_path (files w));
               shown := shown (extracted_world w d track) ++ msgs |}).
Proof.
  intros Hs Da Dv. cbv [mbind M_bind]. rewrite Hs.
  erewrite cleanup_allowed;
    [| apply extracted_temp_audio | apply extracted_temp_video | exact Da | exact Dv].
  unfold extracted_world. cbn [files shown]. now rewrite delete_temps_extracted.
Qed.

(** X7. When the transcription service fails, or its answer is malformed
    or carries no results, the run writes no output file: it ends normally
    and leaves the disk as it was, less the two temporary files. A failure
    of the service and a malformed answer are each shown as one error; an
    answer without results is passed over without any message. *)
Theorem unusable_transcription_writes_nothing (sv : services) (w : world)
    (d : Q) (track : AudioSegment) :
  uploaded_file sv = Some (d, Some track) ->
  deepgram_listen sv (FAudio track) = None
  \/ deepgram_listen sv (FAudio track) = Some TrNoResults
  \/ deepgram_listen sv (FAudio track) = Some TrMalformed ->
  remove_denied sv temp_audio_path = false ->
  remove_denied sv temp_video_path = false ->
  main sv w
  = (Ok (),
     {| files := delete temp_video_path (delete temp_audio_path (files w));
        shown := shown (extracted_world w d track)
                 ++ match deepgram_listen sv (FAudio track) with
                    | None => [StError "An error occurred during transcription"]
                    | Some TrMalformed =>
                        [StError "Error while processing transcription"]
                    | Some _ => []
                    end |}).
Proof.
  intros Hup Hcase Da Dv. rewrite (main_unfold sv w d track Hup).
  destruct Hcase as [-> | [-> | ->]];
    apply cleanup_after_idle_stage; try assumption.
  - reflexivity.
  - cbn. now rewrite app_nil_r.
  - reflexivity.
Qed.

Lemma unusable_transcription_writes_nothing_witness :
  main no_transcription_services demo_world
  = (Ok (),
     {| files := delete temp_video_path (delete temp_audio_path (files demo_world));
        shown := shown (extracted_world demo_world (6 # 1000) demo_audio)
                 ++ [StError "An error occurred during transcription"] |}).
Proof.
  apply (unusable_transcription_writes_nothing no_transcription_services
           demo_world (6 # 1000) demo_audio).
  - reflexivity.
  - left. reflexivity.
  - reflexivity.
  - reflexivity.
Defined.

(** X8. Without a usable correction (the request raises, the status is not
    200, or the corrected text is empty) nothing is reassembled or
    synthesized: the run ends normally and leaves the disk as it was, less
    the two temporary files. The transcript shown and sent for correction
    is the words joined by single spaces. An empty corrected text is passed
    over without any message. *)
Theorem no_correction_no_output (sv : services) (w : world) (d : Q)
    (track : AudioSegment) (segments : list Segment) :
  uploaded_file sv = Some (d, Some track) ->
  deepgram_listen sv (FAudio track) = Some (TrWords segments) ->
  no_correction (openai_chat sv (transcript_of segments)) ->
  remove_denied sv temp_audio_path = false ->
  remove_denied sv temp_video_path = false ->
  main sv w
  = (Ok (),
     {| files := delete temp_video_path (delete temp_audio_path (files w));
        shown := shown (extracted_world w d track)
                 ++ [StWrite "Transcription completed:";
                     StTextArea "Transcribed Text" (transcript_of segments)]
                 ++ match openai_chat sv (transcript_of segments) with
                    | Raise _ => [StError "Error while processing transcription"]
                    | Ok None =>
                        [StError "Error: Unable to get a response from OpenAI API."]
                    | Ok (Some _) => []
                    end |}).
Proof.
  intros Hup Hl Hno Da Dv. rewrite (main_unfold sv w d track Hup), Hl.
  apply cleanup_after_idle_stage; try assumption.
  unfold guarded_processing, try_except, process_transcription,
    correct_transcription.
  fold (transcript_of segments).
  cbv [mbind M_bind st_show lift mret M_ret]. cbn [files shown].
  destruct (openai_chat sv (transcript_of segments)) as [[[|a s]|]|e];
    try contradiction; cbn [files shown]; rewrite <- ?app_assoc; reflexivity.
Qed.

Lemma no_correction_no_output_witness :
  main no_correction_services demo_world
  = (Ok (),
     {| files := delete temp_video_path (delete temp_audio_path (files demo_world));
        shown := shown (extracted_world demo_world (6 # 1000) demo_audio)
                 ++ [StWrite "Transcription completed:";
                     StTextArea "Transcribed Text" "um hello";
                     StError "Error: Unable to get a response from OpenAI API."] |}).
Proof.
  apply (no_correction_no_output no_correction_services demo_world (6 # 1000)
           demo_audio um_hello).
  - reflexivity.
  - reflexivity.
  - exact I.
  - reflexivity.
  - reflexivity.
Defined.

(** ** The files a run may touch *)

Lemma preserves_try {A} path (body : M A) (handler : exn -> M A) :
  preserves path body -> (forall e, preserves path (handler e)) ->
  preserves path (try_except body handler).
Proof.
  intros Hb Hh w. unfold try_except. specialize (Hb w).
  destruct (body w) as [[a|e] w1]; cbn in *; [exact Hb|].
  rewrite <- Hb. apply Hh.
Qed.

Lemma preserves_transcribe path sv q : preserves path (transcribe_audio sv q).
Proof.
  intros w. unfold transcribe_audio. destruct (files w !! q); [|reflexivity].
  destruct (deepgram_listen sv _); reflexivity.
Qed.

Lemma preserves_VideoFileClip path q : preserves path (VideoFileClip q).
Proof.
  intros w. unfold VideoFileClip. destruct (files w !! q) as [[| |]|]; reflexivity.
Qed.

#[local] Hint Resolve preserves_transcribe preserves_VideoFileClip : preserve.

(** The same steps for a whole run. *)
Ltac preserved_run side :=
  repeat first
    [ preserved_leaf side
    | apply preserves_os_remove; side
    | apply preserves_write_audiofile; side
    | apply preserves_try; [|intros ?]
    | preserved_node ].

(** X9. A run creates, overwrites or deletes only seven fixed file names,
    the six of the script and the temporary audio file that
    [write_videofile] keeps while it encodes: every other file on disk is
    the same after the run as before it, whatever the services answer,
    whatever a failing encoder leaves behind, and whether the run ends
    normally or not. *)
Theorem run_touches_only_its_files (sv : services) (w : world) (p : string) :
  p ∉ pipeline_paths ->
  files (main sv w).2 !! p = files w !! p.
Proof.
  intros Hp.
  assert (forall q, q ∈ pipeline_paths -> q <> p) as Hq by (intros q Hin ->; auto).
  revert w. change (preserves p (main sv)).
  unfold main, process_transcription, correct_transcription,
    convert_text_to_speech, process_video_audio_sync,
    adjust_audio_speed_pydub.
  destruct (uploaded_file sv) as [[d track]|]; [|apply preserves_show].
  repeat first
    [ apply preserves_write_videofile;
      apply Hq; unfold pipeline_paths; set_solver
    | preserved_leaf ltac:(apply Hq; unfold pipeline_paths; set_solver)
    | apply preserves_os_remove; apply Hq; unfold pipeline_paths; set_solver
    | apply preserves_write_audiofile; apply Hq; unfold pipeline_paths; set_solver
    | apply preserves_try; [|intros ?]
    | preserved_node ].
Qed.

Lemma run_touches_only_its_files_witness :
  files (main talk_services talk_world).2 !! "holiday.mp4"%string
  = files talk_world !! "holiday.mp4"%string.
Proof.
  apply (run_touches_only_its_files talk_services talk_world "holiday.mp4").
  unfold pipeline_paths. rewrite !not_elem_of_cons.
  repeat split; try discriminate. apply not_elem_of_nil.
Defined.

Lemma preserves_show_ret_bind {A B} path msg (x : A) (k : A -> M B) :
  preserves path (k x) ->
  preserves path ((_ ← st_show msg; mret x) ≫= k).
Proof.
  intros Hk w. cbv [mbind M_bind st_show mret M_ret]. now rewrite (Hk _).
Qed.

(** Without synthesized speech a run writes the uploaded copy, the
    extracted audio and the cleaned audio at most. *)
Lemma preserves_without_speech sv path :
  (forall text, deepgram_speak sv text = None) ->
  temp_video_path <> path -> temp_audio_path <> path ->
  cleaned_audio_path <> path ->
  preserves path (main sv).
Proof.
  intros Hnone Hv Ha Hc.
  unfold main, process_transcription.
  destruct (uploaded_file sv) as [[d track]|]; [|apply preserves_show].
  repeat first
    [ preserved_leaf assumption
    | apply preserves_os_remove; assumption
    | apply preserves_write_audiofile; assumption
    | apply preserves_process; assumption
    | apply preserves_try; [|intros ?]
    | match goal with
      | |- preserves _ (correct_transcription _ _) => unfold correct_transcription
      | |- preserves _ (convert_text_to_speech sv ?c ≫= _) =>
          unfold convert_text_to_speech; rewrite (Hnone c);
          apply preserves_show_ret_bind
      end
    | preserved_node ].
Qed.

(** X10. The final video is written only when speech synthesis succeeds:
    if the synthesis service fails, the run goes no further than the
    cleaned audio, and the speech file, the adjusted speech, the final
    video and the temporary audio file of its encoding are after the run
    what they were before (absent, or files left by an earlier run). *)
Theorem final_video_needs_speech (sv : services) (w : world) :
  (forall text, deepgram_speak sv text = None) ->
  files (main sv w).2 !! final_video_path = files w !! final_video_path
  /\ files (main sv w).2 !! temp_audiofile final_video_path
     = files w !! temp_audiofile final_video_path
  /\ files (main sv w).2 !! adjusted_audio_path = files w !! adjusted_audio_path
  /\ files (main sv w).2 !! speech_path = files w !! speech_path.
Proof.
  intros Hnone.
  assert (forall path,
            temp_video_path <> path -> temp_audio_path <> path ->
            cleaned_audio_path <> path ->
            files (main sv w).2 !! path = files w !! path) as Hkeep.
  { intros path Hv Ha Hc.
    exact (preserves_without_speech sv path Hnone Hv Ha Hc w). }
  split; [apply Hkeep; discriminate|].
  split; [apply Hkeep; discriminate|].
  split; apply Hkeep; discriminate.
Qed.

Lemma final_video_needs_speech_witness :
  files (main no_speech_services demo_world).2 !! final_video_path
  = files demo_world !! final_video_path
  /\ files (main no_speech_services demo_world).2 !! temp_audiofile final_video_path
     = files demo_world !! temp_audiofile final_video_path
  /\ files (main no_speech_services demo_world).2 !! adjusted_audio_path
     = files demo_world !! adjusted_audio_path
  /\ files (main no_speech_services demo_world).2 !! speech_path
     = files demo_world !! speech_path.
Proof.
  apply (final_video_needs_speech no_speech_services demo_world).
  reflexivity.
Defined.

(** ** A run in which every step succeeds *)







(** ** The direction of the speed change *)





(** ** A transcript without words *)

(** X13. When the transcription recognises no word, the transcript sent for
    correction is the empty text; if the correction service still answers
    with a text, the reassembly fails on the empty list of chunks, the
    failure is caught and shown as one error, and the run ends normally
    without any output file: the disk is as it was, less the two temporary
    files. *)
Theorem empty_word_list_run (sv : services) (w : world) (d : Q)
    (track : AudioSegment) (corrected : string) :
  uploaded_file sv = Some (d, Some track) ->
  deepgram_listen sv (FAudio track) = Some (TrWords []) ->
  openai_chat sv ""%string = Ok (Some corrected) ->
  corrected <> ""%string ->
  remove_denied sv temp_audio_path = false ->
  remove_denied sv temp_video_path = false ->
  main sv w
  = (Ok (),
     {| files := delete temp_video_path (delete temp_audio_path (files w));
        shown := shown (extracted_world w d track)
                 ++ [StWrite "Transcription completed:";
                     StTextArea "Transcribed Text" "";
                     StWrite "Corrected Transcription:";
                     StTextArea "Corrected Text" corrected;
                     StError "Error while processing transcription"] |}).
Proof.
  intros Hup Hl Hchat Hc Da Dv. rewrite (main_unfold sv w d track Hup), Hl.
  apply cleanup_after_idle_stage; try assumption.
  unfold guarded_processing, try_except, process_transcription,
    correct_transcription, process_video_audio_sync.
  cbn [map String.concat].
  cbv [mbind M_bind st_show lift mret M_ret from_file]. cbn [files shown].
  rewrite Hchat. destruct corrected as [|a s]; [contradiction|].
  cbn [files shown]. rewrite extracted_temp_audio.
  cbn. rewrite <- !app_assoc. reflexivity.
Qed.

Lemma empty_word_list_run_witness :
  main no_words_services demo_world
  = (Ok (),
     {| files := delete temp_video_path (delete temp_audio_path (files demo_world));
        shown := shown (extracted_world demo_world (6 # 1000) demo_audio)
                 ++ [StWrite "Transcription completed:";
                     StTextArea "Transcribed Text" "";
                     StWrite "Corrected Transcription:";
                     StTextArea "Corrected Text" "Hello.";
                     StError "Error while processing transcription"] |}).
Proof.
  apply (empty_word_list_run no_words_services demo_world (6 # 1000) demo_audio
           "Hello.").
  - reflexivity.
  - reflexivity.
  - reflexivity.
  - discriminate.
  - reflexivity.
  - reflexivity.
Defined.
